(** * Browser automation toolkit: command relay and native-messaging codec

    A shallow embedding of [src/command-server.py] (the single-slot HTTP
    command relay) and of [src/native-host/host.py] (the length-prefixed JSON
    codec of Chrome's native messaging protocol and the HTTP handler that
    forwards requests over it), together with the part of Python's standard
    library the two programs call: [json.dumps], [json.loads],
    [str.encode], [bytes.decode] and [struct.pack]/[struct.unpack] with
    format [<I].

    Conventions.
    - A Python [str] is a list of code points ([pystr]); a [bytes] object is
      a [list byte].
    - Python's [None] is JSON's [null]: both are [JNull].
    - A Python exception is a [Raise] in the [result] type.
    - JSON numbers with a fraction or an exponent are Python floats; binary64
      values are outside this development and the decoder stops at such a
      literal with the marker [FloatLiteral], which no handler catches and no
      theorem below reads as a decoding error.
    - The text of an exception message is kept without the position suffix
      ([": line 1 column 2 (char 1)"]) that CPython appends.
    - Limits of the interpreter (the recursion limit, the limit on the number
      of digits of an integer literal, memory) are not modelled.
    - The HTTP requests are given by their path and by the bytes that
      [rfile.read(content_length)] returned; the parsing of the
      [Content-Length] header is not modelled. *)

From Stdlib.Strings Require Import String Ascii Byte.
From Stdlib Require Import Decimal DecimalFacts DecimalPos DecimalN DecimalZ.
From Stdlib Require Import List ZArith NArith Bool Lia ZifyBool.
Import ListNotations.

Local Open Scope N_scope.

(** ** Exceptions and the error monad *)

Inductive exn : Type :=
| JSONDecodeError (msg : string)
| UnicodeDecodeError
| UnicodeEncodeError
| StructError
| AttributeError (msg : string)
| FloatLiteral
| OutOfFuel.

Inductive result (A : Type) : Type :=
| Ok (a : A)
| Raise (e : exn).

Arguments Ok {A} a.
Arguments Raise {A} e.

Definition bind {A B : Type} (m : result A) (k : A -> result B) : result B :=
  match m with
  | Ok a => k a
  | Raise e => Raise e
  end.

Declare Scope result_scope.
Delimit Scope result_scope with result.
Notation "x <- m ;; k" := (bind m (fun x => k))
  (at level 61, m at next level, right associativity) : result_scope.
Notation "' p <- m ;; k" := (bind m (fun x => let p := x in k))
  (at level 61, p pattern, m at next level, right associativity) : result_scope.
Local Open Scope result_scope.

(** [except Exception] catches every Python exception; the two markers of the
    model are not Python exceptions. *)
Definition is_python_exception (e : exn) : bool :=
  match e with
  | FloatLiteral | OutOfFuel => false
  | _ => true
  end.

(** ** Strings and bytes *)

Definition pystr : Type := list N.

Definition txt (s : string) : pystr := map N_of_ascii (list_ascii_of_string s).

Definition len {A : Type} (l : list A) : N := N.of_nat (length l).

Fixpoint pystr_eqb (a b : pystr) : bool :=
  match a, b with
  | [], [] => true
  | x :: a', y :: b' => (x =? y) && pystr_eqb a' b'
  | _, _ => false
  end.

Definition byte_of_N (n : N) : byte :=
  match Byte.of_N (n mod 256) with
  | Some b => b
  | None => x00
  end.

(** *** [struct.pack('<I', n)] and [struct.unpack('<I', bs)] *)

Definition struct_pack_I (n : N) : result (list byte) :=
  if n <? 4294967296 then
    Ok [byte_of_N (n mod 256); byte_of_N (n / 256 mod 256);
        byte_of_N (n / 65536 mod 256); byte_of_N (n / 16777216 mod 256)]
  else Raise StructError.

Definition struct_unpack_I (bs : list byte) : result N :=
  match bs with
  | [b0; b1; b2; b3] =>
      Ok (Byte.to_N b0 + Byte.to_N b1 * 256 + Byte.to_N b2 * 65536
          + Byte.to_N b3 * 16777216)
  | _ => Raise StructError
  end.

(** *** UTF-8 *)

Definition is_surrogate (c : N) : bool := (55296 <=? c) && (c <=? 57343).

Definition utf8_encode_char (c : N) : result (list byte) :=
  if c <? 128 then Ok [byte_of_N c]
  else if c <? 2048 then Ok [byte_of_N (192 + c / 64); byte_of_N (128 + c mod 64)]
  else if c <? 65536 then
    if is_surrogate c then Raise UnicodeEncodeError
    else Ok [byte_of_N (224 + c / 4096); byte_of_N (128 + c / 64 mod 64);
             byte_of_N (128 + c mod 64)]
  else if c <? 1114112 then
    Ok [byte_of_N (240 + c / 262144); byte_of_N (128 + c / 4096 mod 64);
        byte_of_N (128 + c / 64 mod 64); byte_of_N (128 + c mod 64)]
  else Raise UnicodeEncodeError.

(** [s.encode('utf-8')] *)
Fixpoint encode_utf8 (s : pystr) : result (list byte) :=
  match s with
  | [] => Ok []
  | c :: s' =>
      bs <- utf8_encode_char c ;;
      rest <- encode_utf8 s' ;;
      Ok (bs ++ rest)
  end.

Definition is_cont (n : N) : bool := (128 <=? n) && (n <=? 191).

(** [bs.decode('utf-8')], strict: overlong forms, surrogates and code points
    above U+10FFFF are rejected. *)
Fixpoint decode_utf8 (bs : list byte) : result pystr :=
  match bs with
  | [] => Ok []
  | b0 :: r =>
      let n0 := Byte.to_N b0 in
      if n0 <? 128 then
        cs <- decode_utf8 r ;; Ok (n0 :: cs)
      else if (194 <=? n0) && (n0 <=? 223) then
        match r with
        | b1 :: r1 =>
            let n1 := Byte.to_N b1 in
            if is_cont n1 then
              cs <- decode_utf8 r1 ;;
              Ok (((n0 - 192) * 64 + (n1 - 128)) :: cs)
            else Raise UnicodeDecodeError
        | _ => Raise UnicodeDecodeError
        end
      else if (224 <=? n0) && (n0 <=? 239) then
        match r with
        | b1 :: b2 :: r2 =>
            let n1 := Byte.to_N b1 in
            let n2 := Byte.to_N b2 in
            let lo := if n0 =? 224 then 160 else 128 in
            let hi := if n0 =? 237 then 159 else 191 in
            if (lo <=? n1) && (n1 <=? hi) && is_cont n2 then
              cs <- decode_utf8 r2 ;;
              Ok (((n0 - 224) * 4096 + (n1 - 128) * 64 + (n2 - 128)) :: cs)
            else Raise UnicodeDecodeError
        | _ => Raise UnicodeDecodeError
        end
      else if (240 <=? n0) && (n0 <=? 244) then
        match r with
        | b1 :: b2 :: b3 :: r3 =>
            let n1 := Byte.to_N b1 in
            let n2 := Byte.to_N b2 in
            let n3 := Byte.to_N b3 in
            let lo := if n0 =? 240 then 144 else 128 in
            let hi := if n0 =? 244 then 143 else 191 in
            if (lo <=? n1) && (n1 <=? hi) && is_cont n2 && is_cont n3 then
              cs <- decode_utf8 r3 ;;
              Ok (((n0 - 240) * 262144 + (n1 - 128) * 4096
                   + (n2 - 128) * 64 + (n3 - 128)) :: cs)
            else Raise UnicodeDecodeError
        | _ => Raise UnicodeDecodeError
        end
      else Raise UnicodeDecodeError
  end.

(** ** JSON values *)

Unset Elimination Schemes.
Inductive json : Type :=
| JNull
| JBool (b : bool)
| JInt (z : Z)
| JStr (s : pystr)
| JArr (l : list json)
| JObj (m : list (pystr * json)).
Set Elimination Schemes.

(** Python truth value of a decoded JSON value ([bool(v)]). *)
Definition truthy (v : json) : bool :=
  match v with
  | JNull => false
  | JBool b => b
  | JInt z => negb (Z.eqb z 0)
  | JStr s => match s with [] => false | _ => true end
  | JArr l => match l with [] => false | _ => true end
  | JObj m => match m with [] => false | _ => true end
  end.

(** [a or b] *)
Definition py_or (a b : json) : json := if truthy a then a else b.

(** *** Dictionaries: insertion-ordered association lists with distinct keys *)

Fixpoint dict_set (k : pystr) (v : json) (d : list (pystr * json))
  : list (pystr * json) :=
  match d with
  | [] => [(k, v)]
  | (k', v') :: d' =>
      if pystr_eqb k k' then (k', v) :: d' else (k', v') :: dict_set k v d'
  end.

Fixpoint dict_get (k : pystr) (d : list (pystr * json)) : option json :=
  match d with
  | [] => None
  | (k', v') :: d' => if pystr_eqb k k' then Some v' else dict_get k d'
  end.

(** [dict(pairs)] *)
Definition dict_of_pairs (ps : list (pystr * json)) : list (pystr * json) :=
  fold_left (fun d kv => dict_set (fst kv) (snd kv) d) ps [].

(** ** [json.dumps]

    Default options: [ensure_ascii=True], separators [", "] and [": "], no
    indentation, keys in insertion order. *)

(** One digit of the format [{0:04x}]. *)
Definition hex_digit (d : N) : N := if d <? 10 then 48 + d else 87 + d.

Definition hex4 (n : N) : pystr :=
  [hex_digit (n / 4096 mod 16); hex_digit (n / 256 mod 16);
   hex_digit (n / 16 mod 16); hex_digit (n mod 16)].

(** [{0:04x}] prefixed by a backslash and the letter u *)
Definition u_escape (n : N) : pystr := 92 :: 117 :: hex4 n.

(** The replacement function of [py_encode_basestring_ascii]. *)
Definition escape_char (c : N) : pystr :=
  if c =? 34 then [92; 34]
  else if c =? 92 then [92; 92]
  else if c =? 10 then [92; 110]
  else if c =? 13 then [92; 114]
  else if c =? 9 then [92; 116]
  else if c =? 8 then [92; 98]
  else if c =? 12 then [92; 102]
  else if (32 <=? c) && (c <=? 126) then [c]
  else if c <? 65536 then u_escape c
  else
    let n := c - 65536 in
    u_escape (N.lor 55296 (N.land (N.shiftr n 10) 1023))
    ++ u_escape (N.lor 56320 (N.land n 1023)).

Definition encode_basestring_ascii (s : pystr) : pystr :=
  34 :: flat_map escape_char s ++ [34].

Fixpoint chars_of_uint (u : Decimal.uint) : pystr :=
  match u with
  | Nil => []
  | D0 u' => 48 :: chars_of_uint u'
  | D1 u' => 49 :: chars_of_uint u'
  | D2 u' => 50 :: chars_of_uint u'
  | D3 u' => 51 :: chars_of_uint u'
  | D4 u' => 52 :: chars_of_uint u'
  | D5 u' => 53 :: chars_of_uint u'
  | D6 u' => 54 :: chars_of_uint u'
  | D7 u' => 55 :: chars_of_uint u'
  | D8 u' => 56 :: chars_of_uint u'
  | D9 u' => 57 :: chars_of_uint u'
  end.

(** [int.__repr__] *)
Definition int_repr (z : Z) : pystr :=
  match Z.to_int z with
  | Decimal.Pos u => chars_of_uint u
  | Decimal.Neg u => 45 :: chars_of_uint u
  end.

(** [sep.join(parts)] *)
Fixpoint join (sep : pystr) (parts : list pystr) : pystr :=
  match parts with
  | [] => []
  | [p] => p
  | p :: ps => p ++ sep ++ join sep ps
  end.

Fixpoint json_dumps (v : json) : pystr :=
  match v with
  | JNull => [110; 117; 108; 108]
  | JBool true => [116; 114; 117; 101]
  | JBool false => [102; 97; 108; 115; 101]
  | JInt z => int_repr z
  | JStr s => encode_basestring_ascii s
  | JArr l => 91 :: join [44; 32] (map json_dumps l) ++ [93]
  | JObj m =>
      123 :: join [44; 32]
               (map (fun kv => encode_basestring_ascii (fst kv)
                               ++ 58 :: 32 :: json_dumps (snd kv)) m)
          ++ [125]
  end.

(** ** [json.loads]

    The decoder follows [json.decoder] and [json.scanner]: [scanstring],
    [JSONObject], [JSONArray], the number pattern [NUMBER_RE] and the
    dispatch of [scan_once].  Positions in the text are replaced by the
    suffix still to be read. *)

Definition is_ws (c : N) : bool :=
  (c =? 32) || (c =? 9) || (c =? 10) || (c =? 13).

(** [WHITESPACE.match(s, end).end()] *)
Fixpoint skip_ws (s : pystr) : pystr :=
  match s with
  | [] => []
  | c :: r => if is_ws c then skip_ws r else s
  end.

Definition is_digit (c : N) : bool := (48 <=? c) && (c <=? 57).

Definition hex_val (c : N) : option N :=
  if (48 <=? c) && (c <=? 57) then Some (c - 48)
  else if (97 <=? c) && (c <=? 102) then Some (c - 87)
  else if (65 <=? c) && (c <=? 70) then Some (c - 55)
  else None.

(** [_decode_uXXXX]: four hexadecimal digits *)
Definition decode_uXXXX (a b c d : N) : option N :=
  match hex_val a, hex_val b, hex_val c, hex_val d with
  | Some x, Some y, Some z, Some w => Some (((x * 16 + y) * 16 + z) * 16 + w)
  | _, _, _, _ => None
  end.

(** The table [BACKSLASH] *)
Definition backslash (e : N) : option N :=
  if e =? 34 then Some 34
  else if e =? 92 then Some 92
  else if e =? 47 then Some 47
  else if e =? 98 then Some 8
  else if e =? 102 then Some 12
  else if e =? 110 then Some 10
  else if e =? 114 then Some 13
  else if e =? 116 then Some 9
  else None.

Definition is_high_surrogate (c : N) : bool := (55296 <=? c) && (c <=? 56319).
Definition is_low_surrogate (c : N) : bool := (56320 <=? c) && (c <=? 57343).

Definition join_surrogates (hi lo : N) : N :=
  65536 + N.lor (N.shiftl (hi - 55296) 10) (lo - 56320).

Definition push_char (c : N) (m : result (pystr * pystr)) : result (pystr * pystr) :=
  p <- m ;; Ok (c :: fst p, snd p).

(** [scanstring(s, end, strict=True)], entered after the opening quote;
    returns the decoded string and the text after the closing quote. *)
Fixpoint scanstring (s : pystr) : result (pystr * pystr) :=
  match s with
  | [] => Raise (JSONDecodeError "Unterminated string starting at")
  | c :: r =>
      if c =? 34 then Ok ([], r)
      else if c =? 92 then
        match r with
        | [] => Raise (JSONDecodeError "Unterminated string starting at")
        | e :: r1 =>
            if e =? 117 then
              match r1 with
              | h1 :: h2 :: h3 :: h4 :: r2 =>
                  match decode_uXXXX h1 h2 h3 h4 with
                  | None => Raise (JSONDecodeError "Invalid \uXXXX escape")
                  | Some uni =>
                      if is_high_surrogate uni then
                        match r2 with
                        | b1 :: u1 :: r3 =>
                            if (b1 =? 92) && (u1 =? 117) then
                              match r3 with
                              | h5 :: h6 :: h7 :: h8 :: r4 =>
                                  match decode_uXXXX h5 h6 h7 h8 with
                                  | None =>
                                      Raise (JSONDecodeError "Invalid \uXXXX escape")
                                  | Some uni2 =>
                                      if is_low_surrogate uni2
                                      then push_char (join_surrogates uni uni2)
                                                     (scanstring r4)
                                      else push_char uni (scanstring r2)
                                  end
                              | _ => Raise (JSONDecodeError "Invalid \uXXXX escape")
                              end
                            else push_char uni (scanstring r2)
                        | _ => push_char uni (scanstring r2)
                        end
                      else push_char uni (scanstring r2)
                  end
              | _ => Raise (JSONDecodeError "Invalid \uXXXX escape")
              end
            else
              match backslash e with
              | Some x => push_char x (scanstring r1)
              | None => Raise (JSONDecodeError "Invalid \escape")
              end
        end
      else if c <? 32 then Raise (JSONDecodeError "Invalid control character at")
      else push_char c (scanstring r)
  end.

Definition cons_digit (c : N) : option (Decimal.uint -> Decimal.uint) :=
  if c =? 48 then Some D0
  else if c =? 49 then Some D1
  else if c =? 50 then Some D2
  else if c =? 51 then Some D3
  else if c =? 52 then Some D4
  else if c =? 53 then Some D5
  else if c =? 54 then Some D6
  else if c =? 55 then Some D7
  else if c =? 56 then Some D8
  else if c =? 57 then Some D9
  else None.

(** The longest run of decimal digits *)
Fixpoint scan_digits (s : pystr) : Decimal.uint * pystr :=
  match s with
  | [] => (Nil, [])
  | c :: r =>
      match cons_digit c with
      | Some d => let p := scan_digits r in (d (fst p), snd p)
      | None => (Nil, s)
      end
  end.

(** The integer part of [NUMBER_RE]: a single 0, or a digit 1 to 9 followed
    by any digits *)
Definition scan_integer (s : pystr) : option (Decimal.uint * pystr) :=
  match s with
  | [] => None
  | c :: r =>
      if c =? 48 then Some (D0 Nil, r)
      else if is_digit c then Some (scan_digits s)
      else None
  end.

(** The fraction of [NUMBER_RE], a dot and at least one digit: the text
    after it, when there is one *)
Definition scan_frac (s : pystr) : option pystr :=
  match s with
  | c :: r =>
      if c =? 46 then
        match scan_digits r with
        | (Nil, _) => None
        | (_, r') => Some r'
        end
      else None
  | [] => None
  end.

(** The exponent of [NUMBER_RE], e or E, an optional sign and at least one
    digit: the text after it, when there is one *)
Definition scan_exp (s : pystr) : option pystr :=
  match s with
  | c :: r =>
      if (c =? 101) || (c =? 69) then
        let r1 := match r with
                  | sg :: r' => if (sg =? 45) || (sg =? 43) then r' else r
                  | [] => r
                  end in
        match scan_digits r1 with
        | (Nil, _) => None
        | (_, r') => Some r'
        end
      else None
  | [] => None
  end.

(** [NUMBER_RE.match]: sign, integer part, whether a fraction or an exponent
    follows, and the text after the number. *)
Definition match_number (s : pystr)
  : option (bool * Decimal.uint * bool * pystr) :=
  let '(neg, s1) := match s with
                    | c :: r => if c =? 45 then (true, r) else (false, s)
                    | [] => (false, s)
                    end in
  match scan_integer s1 with
  | None => None
  | Some (u, r) =>
      let '(frac, r1) := match scan_frac r with
                         | Some r1 => (true, r1)
                         | None => (false, r)
                         end in
      let '(ex, r2) := match scan_exp r1 with
                       | Some r2 => (true, r2)
                       | None => (false, r1)
                       end in
      Some (neg, u, frac || ex, r2)
  end.

(** [s[idx:idx+len(p)] == p]: the text after the prefix [p] *)
Fixpoint strip_prefix (p s : pystr) : option pystr :=
  match p, s with
  | [], _ => Some s
  | x :: p', y :: s' => if x =? y then strip_prefix p' s' else None
  | _ :: _, [] => None
  end.

Definition starts_with (p s : pystr) : bool :=
  match strip_prefix p s with
  | Some _ => true
  | None => false
  end.

(** The body of the loop of [JSONArray]: one value, then [,] or the closing
    bracket. *)
Fixpoint array_items (scan : pystr -> result (json * pystr)) (n : nat)
  (s : pystr) : result (list json * pystr) :=
  match n with
  | O => Raise OutOfFuel
  | S n' =>
      p <- scan s ;;
      match skip_ws (snd p) with
      | [] => Raise (JSONDecodeError "Expecting ',' delimiter")
      | c :: r =>
          if c =? 93 then Ok ([fst p], r)
          else if c =? 44 then
            q <- array_items scan n' (skip_ws r) ;;
            Ok (fst p :: fst q, snd q)
          else Raise (JSONDecodeError "Expecting ',' delimiter")
      end
  end.

(** [JSONArray], entered after the opening bracket *)
Definition JSONArray (scan : pystr -> result (json * pystr)) (n : nat)
  (s : pystr) : result (json * pystr) :=
  match skip_ws s with
  | [] => Raise (JSONDecodeError "Expecting value")
  | c :: r =>
      if c =? 93 then Ok (JArr [], r)
      else q <- array_items scan n (c :: r) ;; Ok (JArr (fst q), snd q)
  end.

(** The body of the loop of [JSONObject], entered after the opening quote of
    a key: the key, a colon, a value, then [,] and a quote, or the closing
    brace. *)
Fixpoint object_pairs (scan : pystr -> result (json * pystr)) (n : nat)
  (s : pystr) : result (list (pystr * json) * pystr) :=
  match n with
  | O => Raise OutOfFuel
  | S n' =>
      k <- scanstring s ;;
      match skip_ws (snd k) with
      | [] => Raise (JSONDecodeError "Expecting ':' delimiter")
      | c :: r =>
          if c =? 58 then
            p <- scan (skip_ws r) ;;
            match skip_ws (snd p) with
            | [] => Raise (JSONDecodeError "Expecting ',' delimiter")
            | c1 :: r1 =>
                if c1 =? 125 then Ok ([(fst k, fst p)], r1)
                else if c1 =? 44 then
                  match skip_ws r1 with
                  | [] =>
                      Raise (JSONDecodeError
                        "Expecting property name enclosed in double quotes")
                  | c2 :: r2 =>
                      if c2 =? 34 then
                        q <- object_pairs scan n' r2 ;;
                        Ok ((fst k, fst p) :: fst q, snd q)
                      else
                        Raise (JSONDecodeError
                          "Expecting property name enclosed in double quotes")
                  end
                else Raise (JSONDecodeError "Expecting ',' delimiter")
            end
          else Raise (JSONDecodeError "Expecting ':' delimiter")
      end
  end.

(** [JSONObject], entered after the opening brace *)
Definition JSONObject (scan : pystr -> result (json * pystr)) (n : nat)
  (s : pystr) : result (json * pystr) :=
  match skip_ws s with
  | [] =>
      Raise (JSONDecodeError "Expecting property name enclosed in double quotes")
  | c :: r =>
      if c =? 125 then Ok (JObj [], r)
      else if c =? 34 then
        q <- object_pairs scan n r ;; Ok (JObj (dict_of_pairs (fst q)), snd q)
      else
        Raise (JSONDecodeError "Expecting property name enclosed in double quotes")
  end.

(** [scan_once]: [StopIteration] is reported as the [JSONDecodeError] every
    caller turns it into. The fuel bounds the nesting depth and the number of
    items of a container; [json_loads] supplies more than any text needs. *)
Fixpoint scan_once (fuel : nat) (s : pystr) : result (json * pystr) :=
  match fuel with
  | O => Raise OutOfFuel
  | S fuel' =>
      match s with
      | [] => Raise (JSONDecodeError "Expecting value")
      | c :: r =>
          if c =? 34 then
            p <- scanstring r ;; Ok (JStr (fst p), snd p)
          else if c =? 123 then JSONObject (scan_once fuel') fuel' r
          else if c =? 91 then JSONArray (scan_once fuel') fuel' r
          else
            match strip_prefix [110; 117; 108; 108] s with
            | Some r' => Ok (JNull, r')
            | None =>
            match strip_prefix [116; 114; 117; 101] s with
            | Some r' => Ok (JBool true, r')
            | None =>
            match strip_prefix [102; 97; 108; 115; 101] s with
            | Some r' => Ok (JBool false, r')
            | None =>
            match match_number s with
            | Some (neg, u, false, r') =>
                Ok (JInt (Z.of_int (if neg then Decimal.Neg u else Decimal.Pos u)), r')
            | Some (_, _, true, _) => Raise FloatLiteral
            | None =>
                if starts_with [78; 97; 78] s
                   || starts_with [73; 110; 102; 105; 110; 105; 116; 121] s
                   || starts_with [45; 73; 110; 102; 105; 110; 105; 116; 121] s
                then Raise FloatLiteral
                else Raise (JSONDecodeError "Expecting value")
            end end end end
      end
  end.

(** [JSONDecoder.decode]: leading white space, one value, trailing white
    space, and nothing else. *)
Definition decode (s : pystr) : result json :=
  p <- scan_once (S (length s)) (skip_ws s) ;;
  match skip_ws (snd p) with
  | [] => Ok (fst p)
  | _ :: _ => Raise (JSONDecodeError "Extra data")
  end.

(** [json.loads(s)] for a [str] argument *)
Definition json_loads (s : pystr) : result json :=
  if starts_with [65279] s
  then Raise (JSONDecodeError "Unexpected UTF-8 BOM (decode using utf-8-sig)")
  else decode s.

(** ** HTTP responses *)

Record response : Type := mkResponse {
  status : N;
  headers : list (string * string);
  body : list byte
}.

Definition content_type_json : string * string :=
  ("Content-Type", "application/json")%string.

(** [_cors_headers] of the relay, [_send_cors_headers] of the native host *)
Definition cors_headers : list (string * string) :=
  [("Access-Control-Allow-Origin", "*");
   ("Access-Control-Allow-Methods", "GET, POST, OPTIONS");
   ("Access-Control-Allow-Headers", "Content-Type")]%string.

(** [json.dumps(v).encode()] *)
Definition json_bytes (v : json) : result (list byte) :=
  encode_utf8 (json_dumps v).

(** ** [src/native-host/host.py] *)

Module NativeHost.

(** The two byte streams of the process: what [sys.stdin.buffer] still holds
    before its end of file, and what has been written to
    [sys.stdout.buffer]. *)
Record io : Type := mkIo {
  stdin : list byte;
  stdout : list byte
}.

Definition IO (A : Type) : Type := io -> result A * io.

Definition ret {A : Type} (a : A) : IO A := fun w => (Ok a, w).

Definition lift {A : Type} (m : result A) : IO A := fun w => (m, w).

Definition bindIO {A B : Type} (m : IO A) (k : A -> IO B) : IO B :=
  fun w =>
    match m w with
    | (Ok a, w') => k a w'
    | (Raise e, w') => (Raise e, w')
    end.

Declare Scope io_scope.
Delimit Scope io_scope with io.
Notation "x <~ m ;; k" := (bindIO m (fun x => k))
  (at level 61, m at next level, right associativity) : io_scope.
Notation "m ;;; k" := (bindIO m (fun _ => k))
  (at level 61, right associativity) : io_scope.
Local Open Scope io_scope.

(** The first [n] bytes of a stream and what follows them; fewer when the
    stream ends first. *)
Fixpoint split_bytes (n : N) (s : list byte) : list byte * list byte :=
  match s with
  | [] => ([], [])
  | b :: r =>
      if n =? 0 then ([], s)
      else let p := split_bytes (N.pred n) r in (b :: fst p, snd p)
  end.

(** [sys.stdin.buffer.read(n)]: blocks until [n] bytes or the end of file *)
Definition stdin_read (n : N) : IO (list byte) :=
  fun w =>
    let p := split_bytes n (stdin w) in
    (Ok (fst p), {| stdin := snd p; stdout := stdout w |}).

(** [sys.stdout.buffer.write(bs)] *)
Definition stdout_write (bs : list byte) : IO unit :=
  fun w => (Ok tt, {| stdin := stdin w; stdout := stdout w ++ bs |}).

(** [sys.stdout.buffer.flush()] *)
Definition stdout_flush : IO unit := ret tt.

Definition read_native_message : IO json :=
  raw_length <~ stdin_read 4 ;;
  if len raw_length <? 4 then ret JNull
  else
    length <~ lift (struct_unpack_I raw_length) ;;
    payload <~ stdin_read length ;;
    message <~ lift (decode_utf8 payload) ;;
    lift (json_loads message).

Definition write_native_message (message : json) : IO unit :=
  encoded <~ lift (encode_utf8 (json_dumps message)) ;;
  prefix <~ lift (struct_pack_I (len encoded)) ;;
  stdout_write prefix ;;;
  stdout_write encoded ;;;
  stdout_flush.

Definition send_to_extension (message : json) : IO json :=
  write_native_message message ;;;
  read_native_message.

(** [str(e)], the longer messages cut short *)
Definition exn_str (e : exn) : pystr :=
  match e with
  | JSONDecodeError msg => txt msg
  | AttributeError msg => txt msg
  | UnicodeDecodeError => txt "'utf-8' codec can't decode byte"
  | UnicodeEncodeError => txt "'utf-8' codec can't encode character"
  | StructError => txt "'I' format requires 0 <= number <= 4294967295"
  | FloatLiteral => []
  | OutOfFuel => []
  end.

Definition error_payload (message : pystr) : json :=
  JObj [(txt "success", JBool false); (txt "error", JStr message)].

Definition json_response (code : N) (v : json) : result response :=
  bs <- json_bytes v ;;
  Ok {| status := code; headers := content_type_json :: cors_headers; body := bs |}.

(** [type(v).__name__] *)
Definition type_name (v : json) : string :=
  match v with
  | JNull => "NoneType"
  | JBool _ => "bool"
  | JInt _ => "int"
  | JStr _ => "str"
  | JArr _ => "list"
  | JObj _ => "dict"
  end.

(** [request.get('id', default)] and [request['id'] = request_id]: only a
    dict has [get]. *)
Definition with_request_id (default : pystr) (request : json) : result json :=
  match request with
  | JObj m =>
      let request_id := match dict_get (txt "id") m with
                        | Some v => v
                        | None => JStr default
                        end in
      Ok (JObj (dict_set (txt "id") request_id m))
  | _ =>
      Raise (AttributeError
               ("'" ++ type_name request ++ "' object has no attribute 'get'")%string)
  end.

(** The class attribute [request_id_counter]. [self.request_id_counter += 1]
    reads it and binds the sum to an attribute of the handler instance, which
    serves one request: the class attribute itself is never assigned. The
    class attribute [pending_requests] is neither read nor written. *)
Definition request_id_counter : Z := 0.

(** The [try] block of [do_POST] *)
Definition forward (request_body : list byte) : IO response :=
  text <~ lift (decode_utf8 request_body) ;;
  request <~ lift (json_loads text) ;;
  let counter := (request_id_counter + 1)%Z in
  request' <~ lift (with_request_id (txt "http_" ++ int_repr counter) request) ;;
  reply <~ send_to_extension request' ;;
  lift (json_response 200 reply).

(** [do_POST]: the request body is what [rfile.read(content_length)]
    returned. The result is [Raise] only where the model stops on one of its
    markers. *)
Definition do_POST (request_body : list byte) : IO response :=
  fun w =>
    match forward request_body w with
    | (Ok r, w') => (Ok r, w')
    | (Raise (JSONDecodeError msg), w') =>
        (json_response 400
           (error_payload (txt "Invalid JSON: " ++ exn_str (JSONDecodeError msg))),
         w')
    | (Raise e, w') =>
        if is_python_exception e
        then (json_response 500 (error_payload (exn_str e)), w')
        else (Raise e, w')
    end.

(** [do_GET]: the health check *)
Definition do_GET : result response :=
  json_response 200
    (JObj [(txt "status", JStr (txt "ok"));
           (txt "name", JStr (txt "browser-task-executor"))]).

(** The [try] block of the loop of [run_native_host]: read one message;
    [None] asks for the [break], any other message is echoed. *)
Definition echo_once : IO bool :=
  message <~ read_native_message ;;
  match message with
  | JNull => ret false
  | _ => write_native_message message ;;; ret true
  end.

(** [run_native_host]: the loop runs until the [break]; an exception of the
    [try] block is answered by an error message and the loop goes on. The
    fuel bounds the number of rounds. *)
Fixpoint run_native_host (fuel : nat) : IO unit :=
  fun w =>
    match fuel with
    | O => (Raise OutOfFuel, w)
    | S fuel' =>
        match echo_once w with
        | (Ok false, w') => (Ok tt, w')
        | (Ok true, w') => run_native_host fuel' w'
        | (Raise e, w') =>
            if is_python_exception e
            then (write_native_message (error_payload (exn_str e)) ;;;
                  run_native_host fuel') w'
            else (Raise e, w')
        end
    end.


End NativeHost.

(** ** [src/command-server.py] *)

Module CommandServer.

(** The module-level shared state. [result_event] is the flag of the
    [threading.Event]; [lock] is a mutex, so the blocks run under it are the
    atomic steps of the relay. *)
Record state : Type := mkState {
  pending_command : json;
  pending_result : json;
  result_event : bool
}.

Definition initial : state :=
  {| pending_command := JNull; pending_result := JNull; result_event := false |}.

(** Lines 83-85: [pending_command = data; result_event.clear()] *)
Definition submit (data : json) (st : state) : state :=
  {| pending_command := data;
     pending_result := pending_result st;
     result_event := false |}.

(** Lines 90-92: [result = pending_result; pending_result = None] *)
Definition collect (st : state) : json * state :=
  (pending_result st,
   {| pending_command := pending_command st;
      pending_result := JNull;
      result_event := result_event st |}).

(** Lines 102-104: [pending_result = data; result_event.set()] *)
Definition deliver (data : json) (st : state) : state :=
  {| pending_command := pending_command st;
     pending_result := data;
     result_event := true |}.

(** Lines 45-57: the poll of the extension, under the lock *)
Definition poll (st : state) : result response * state :=
  if truthy (pending_command st) then
    let cmd := pending_command st in
    let st' := {| pending_command := JNull;
                  pending_result := pending_result st;
                  result_event := result_event st |} in
    (bs <- json_bytes cmd ;;
     Ok {| status := 200; headers := content_type_json :: cors_headers; body := bs |},
     st')
  else
    (Ok {| status := 204; headers := cors_headers; body := [] |}, st).

Definition do_GET (path : string) (st : state) : result response * state :=
  if String.eqb path "/command" then poll st
  else if String.eqb path "/" then
    (bs <- json_bytes (JObj [(txt "status", JStr (txt "ok"));
                             (txt "name", JStr (txt "command-server"))]) ;;
     Ok {| status := 200; headers := content_type_json :: cors_headers; body := bs |},
     st)
  else (Ok {| status := 404; headers := []; body := [] |}, st).

Definition do_OPTIONS : response :=
  {| status := 200; headers := cors_headers; body := [] |}.

(** What the other handler threads do while one [POST /command] is between
    its two locked blocks: each entry is one block run under the lock. *)
Inductive action : Type :=
| Submit (data : json)
| Collect
| Poll
| Deliver (data : json).

Definition run (a : action) (st : state) : state :=
  match a with
  | Submit data => submit data st
  | Collect => snd (collect st)
  | Poll => snd (poll st)
  | Deliver data => deliver data st
  end.

Definition run_all (l : list action) (st : state) : state :=
  fold_left (fun s a => run a s) l st.

(** [result_event.wait(timeout)] against a schedule of the other threads:
    [(d, a)] runs [a] when [d] more time units have passed. The wait returns
    at once when the flag is set, else when a scheduled action sets it, else
    when the time is used up. Returns the state and the time left. *)
Fixpoint wait (timeout : N) (env : list (N * action)) (st : state) : state * N :=
  if result_event st then (st, timeout)
  else
    match env with
    | [] => (st, 0)
    | (d, a) :: env' =>
        if d <? timeout then wait (timeout - d) env' (run a st)
        else (st, 0)
    end.

(** The outcome of one request: the response (or the exception that escaped
    the handler), the shared state it leaves and the time it was blocked. *)
Record outcome : Type := mkOutcome {
  reply : result response;
  final : state;
  elapsed : N
}.

Definition timeout_result : json := JObj [(txt "error", JStr (txt "timeout"))].

(** Line 75: [json.loads(body) if body else {}] *)
Definition request_data (text : pystr) : result json :=
  match text with
  | [] => Ok (JObj [])
  | _ :: _ => json_loads text
  end.

(** [do_POST]. [request_body] is what [rfile.read(content_length)] returned;
    [env] is what the other threads do during the wait and [late] what they
    do between the end of the wait and the second locked block. *)
Definition do_POST (path : string) (request_body : list byte)
  (env : list (N * action)) (late : list action) (st : state) : outcome :=
  match decode_utf8 request_body with
  | Raise e => {| reply := Raise e; final := st; elapsed := 0 |}
  | Ok text =>
      match request_data text with
      | Raise (JSONDecodeError _) =>
          {| reply := Ok {| status := 400; headers := []; body := [] |};
             final := st; elapsed := 0 |}
      | Raise e => {| reply := Raise e; final := st; elapsed := 0 |}
      | Ok data =>
          if String.eqb path "/command" then
            let st1 := submit data st in
            let w := wait 30 env st1 in
            let st2 := run_all late (fst w) in
            let c := collect st2 in
            {| reply :=
                 bs <- json_bytes (py_or (fst c) timeout_result) ;;
                 Ok {| status := 200;
                       headers := content_type_json :: cors_headers;
                       body := bs |};
               final := snd c;
               elapsed := 30 - snd w |}
          else if String.eqb path "/result" then
            {| reply := Ok {| status := 200; headers := cors_headers; body := [] |};
               final := deliver data st; elapsed := 0 |}
          else
            {| reply := Ok {| status := 404; headers := []; body := [] |};
               final := st; elapsed := 0 |}
      end
  end.

(** Schedules in which no other thread delivers a result, and schedules in
    which no other thread delivers or collects one. *)
Definition is_deliver (a : action) : bool :=
  match a with
  | Deliver _ => true
  | _ => false
  end.

Definition is_collect (a : action) : bool :=
  match a with
  | Collect => true
  | _ => false
  end.

Definition no_deliver (l : list action) : bool :=
  forallb (fun a => negb (is_deliver a)) l.

Definition no_deliver_no_collect (l : list action) : bool :=
  forallb (fun a => negb (is_deliver a) && negb (is_collect a)) l.

(** The twenty characters of the JSON text of [timeout_result]: an opening
    brace, the key error in quotes, a colon and a space, the string timeout
    in quotes, a closing brace. *)
Definition timeout_text : pystr :=
  [123; 34; 101; 114; 114; 111; 114; 34; 58; 32;
   34; 116; 105; 109; 101; 111; 117; 116; 34; 125].

End CommandServer.

(** ** Predicates of the statements *)

Definition is_ascii (s : pystr) : Prop := Forall (fun c => c < 128) s.

(** A code point that is a Unicode scalar value: below U+110000 and not a
    surrogate. *)
Definition is_scalar (c : N) : bool := (c <? 1114112) && negb (is_surrogate c).

Definition text_ok (s : pystr) : bool := forallb is_scalar s.

Fixpoint distinct (ks : list pystr) : bool :=
  match ks with
  | [] => true
  | k :: ks' => negb (existsb (pystr_eqb k) ks') && distinct ks'
  end.

(** The JSON-representable values of the model: strings and keys are Unicode
    text, and the keys of an object are distinct, as the keys of a Python
    dict are. *)
Fixpoint representable (v : json) : bool :=
  match v with
  | JNull | JBool _ | JInt _ => true
  | JStr s => text_ok s
  | JArr l => forallb representable l
  | JObj m =>
      forallb (fun kv => text_ok (fst kv) && representable (snd kv)) m
      && distinct (map fst m)
  end.

(** What may follow a value in the output of [json.dumps]: the end of the
    text, a comma, or a closing bracket or brace. *)
Definition stops (rest : pystr) : bool :=
  match rest with
  | [] => true
  | c :: _ => (c =? 44) || (c =? 93) || (c =? 125)
  end.

(** The first character of a JSON value *)
Definition value_start (c : N) : bool :=
  (c =? 110) || (c =? 116) || (c =? 102) || (c =? 34) || (c =? 91)
  || (c =? 123) || (c =? 45) || is_digit c.

(** One item of an object in the output of [json.dumps] *)
Definition pair_text (kv : pystr * json) : list N :=
  encode_basestring_ascii (fst kv) ++ 58 :: 32 :: json_dumps (snd kv).

(** The sign and digits of an integer, as [match_number] returns them *)
Definition int_of_parts (neg : bool) (u : Decimal.uint) : Z :=
  Z.of_int (if neg then Decimal.Neg u else Decimal.Pos u).

(** A scan that returns leaves less text than it was given. *)
Definition consumes {A : Type} (scan : pystr -> result (A * pystr)) : Prop :=
  forall s v r, scan s = Ok (v, r) -> (length r < length s)%nat.

(** A scan that does not run out of fuel on a text shorter than [n]. *)
Definition fueled {A : Type} (scan : pystr -> result (A * pystr)) (n : nat) : Prop :=
  forall s, (length s < n)%nat -> scan s <> Raise OutOfFuel.

(** [scan_once] reads the text of [v] back, whatever allowed text follows. *)
Definition reads_back (v : json) : Prop :=
  representable v = true ->
  forall fuel rest,
    (length (json_dumps v) <= fuel)%nat -> stops rest = true ->
    scan_once fuel (json_dumps v ++ rest) = Ok (v, rest).

(** ** Values and streams of the examples *)

Definition quoted (s : string) : pystr := 34 :: txt s ++ [34].

(** The body of the scenario of the specification: an object with the keys
    tool and args, the tool being screenshot and args the empty object. *)
Definition screenshot_body : list byte :=
  map byte_of_N (txt "{" ++ quoted "tool" ++ txt ":" ++ quoted "screenshot"
                 ++ txt "," ++ quoted "args" ++ txt ":{}}").

Definition screenshot_command : json :=
  JObj [(txt "tool", JStr (txt "screenshot")); (txt "args", JObj [])].


(** A stream that holds one whole frame: a length prefix declaring [L] and
    a payload of exactly [L] bytes. *)
Definition frame (w : NativeHost.io) (L : N) : Prop :=
  exists b0 b1 b2 b3 payload,
    NativeHost.stdin w = b0 :: b1 :: b2 :: b3 :: payload
    /\ struct_unpack_I [b0; b1; b2; b3] = Ok L
    /\ len payload = L.

(** ** Frames and schedules of the further statements *)

(** A value whose JSON text fits the length prefix. *)
Definition fits (v : json) : bool := len (json_dumps v) <? 4294967296.

(** The bytes [write_native_message] appends to the output for [v]. *)
Definition frame_bytes (v : json) : list byte :=
  NativeHost.stdout
    (snd (NativeHost.write_native_message v
            {| NativeHost.stdin := []; NativeHost.stdout := [] |})).

(** A message [run_native_host] echoes as it is: JSON-representable, short
    enough for the length prefix and other than [None]. *)
Definition echoable (v : json) : bool :=
  representable v && fits v
  && match v with
     | JNull => false
     | _ => true
     end.

(** The time a schedule takes. *)
Definition total_delay (env : list (N * CommandServer.action)) : N :=
  fold_right (fun p acc => fst p + acc) 0 env.

(** The identifier [do_POST] of the native host gives a request without
    one: the text http_1. *)
Definition default_request_id : pystr :=
  txt "http_" ++ int_repr (NativeHost.request_id_counter + 1).

(** * Properties *)

(** ** Bytes, [struct] and UTF-8 on ASCII text *)

Ltac div_lia := zify; Z.to_euclidean_division_equations; lia.

Ltac if_lia :=
  match goal with
  | |- context [if ?b then _ else _] =>
      first [replace b with true by lia | replace b with false by lia]
  end.

Lemma len_app {A : Type} (l1 l2 : list A) : len (l1 ++ l2) = len l1 + len l2.
Proof. unfold len. rewrite length_app. lia. Qed.

Lemma len_cons {A : Type} (x : A) (l : list A) : len (x :: l) = 1 + len l.
Proof. unfold len. cbn [length]. lia. Qed.

Lemma len_map {A B : Type} (f : A -> B) (l : list A) : len (map f l) = len l.
Proof. unfold len. now rewrite length_map. Qed.

Lemma to_N_byte_of_N (n : N) : n < 256 -> Byte.to_N (byte_of_N n) = n.
Proof.
  intros Hn. unfold byte_of_N. rewrite N.mod_small by exact Hn.
  destruct (Byte.of_N n) as [b|] eqn:E.
  - now apply Byte.to_of_N.
  - apply Byte.of_N_None_iff in E. lia.
Qed.

Lemma byte_of_N_to_N (b : byte) : byte_of_N (Byte.to_N b) = b.
Proof.
  unfold byte_of_N. pose proof (Byte.to_N_bounded b) as Hb.
  rewrite N.mod_small by lia. now rewrite Byte.of_to_N.
Qed.

Lemma struct_unpack_pack (n : N) :
  n < 4294967296 ->
  exists bs, struct_pack_I n = Ok bs /\ len bs = 4 /\ struct_unpack_I bs = Ok n.
Proof.
  intros Hn. unfold struct_pack_I.
  apply N.ltb_lt in Hn as Hb. rewrite Hb.
  eexists. split; [reflexivity|]. split; [reflexivity|].
  unfold struct_unpack_I.
  rewrite !to_N_byte_of_N by (apply N.mod_upper_bound; discriminate).
  f_equal. div_lia.
Qed.

Lemma struct_pack_overflow (n : N) :
  4294967296 <= n -> struct_pack_I n = Raise StructError.
Proof.
  intros Hn. unfold struct_pack_I.
  destruct (N.ltb_spec n 4294967296); [lia | reflexivity].
Qed.

Lemma struct_unpack_bound (b0 b1 b2 b3 : byte) (n : N) :
  struct_unpack_I [b0; b1; b2; b3] = Ok n -> n < 4294967296.
Proof.
  unfold struct_unpack_I. intros [= <-].
  pose proof (Byte.to_N_bounded b0). pose proof (Byte.to_N_bounded b1).
  pose proof (Byte.to_N_bounded b2). pose proof (Byte.to_N_bounded b3).
  lia.
Qed.

Lemma encode_utf8_ascii (s : pystr) :
  is_ascii s -> encode_utf8 s = Ok (map byte_of_N s).
Proof.
  induction 1 as [|c s Hc _ IH]; [reflexivity|].
  cbn [encode_utf8 map]. unfold utf8_encode_char.
  apply N.ltb_lt in Hc. rewrite Hc. cbn [bind]. now rewrite IH.
Qed.

Lemma decode_utf8_ascii (s : pystr) :
  is_ascii s -> decode_utf8 (map byte_of_N s) = Ok s.
Proof.
  induction 1 as [|c s Hc _ IH]; [reflexivity|].
  cbn [decode_utf8 map].
  rewrite to_N_byte_of_N by lia.
  apply N.ltb_lt in Hc. rewrite Hc. now rewrite IH.
Qed.

(** ** [json.dumps] and [json.loads] *)


Lemma json_induction (P : json -> Prop) :
  P JNull -> (forall b, P (JBool b)) -> (forall z, P (JInt z)) ->
  (forall s, P (JStr s)) ->
  (forall l, Forall P l -> P (JArr l)) ->
  (forall m, Forall (fun kv => P (snd kv)) m -> P (JObj m)) ->
  forall v, P v.
Proof.
  intros HN HB HI HS HA HO. fix IH 1. intros [ | b | z | s | l | m].
  - exact HN.
  - apply HB.
  - apply HI.
  - apply HS.
  - apply HA. revert l. fix IHl 1. intros [|x l].
    + constructor.
    + constructor; [apply IH | apply IHl].
  - apply HO. revert m. fix IHm 1. intros [|[k x] m].
    + constructor.
    + constructor; [apply IH | apply IHm].
Qed.

(** *** The output of [json.dumps] is ASCII *)

Lemma is_ascii_app (a b : pystr) : is_ascii a -> is_ascii b -> is_ascii (a ++ b).
Proof. intros Ha Hb. apply Forall_app. now split. Qed.

Lemma hex_digit_ascii (d : N) : d < 16 -> hex_digit d < 128.
Proof. unfold hex_digit. intros Hd. destruct (d <? 10); lia. Qed.

Lemma u_escape_ascii (n : N) : is_ascii (u_escape n).
Proof.
  unfold u_escape, hex4, is_ascii.
  repeat constructor; try apply hex_digit_ascii; apply N.mod_upper_bound; discriminate.
Qed.

Lemma escape_char_ascii (c : N) : is_ascii (escape_char c).
Proof.
  unfold escape_char.
  repeat match goal with
         | |- is_ascii (if ?b then _ else _) => destruct b eqn:?
         end;
    try (repeat constructor; lia).
  - apply u_escape_ascii.
  - apply is_ascii_app; apply u_escape_ascii.
Qed.

Lemma encode_basestring_ascii_is_ascii (s : pystr) :
  is_ascii (encode_basestring_ascii s).
Proof.
  unfold encode_basestring_ascii. constructor; [reflexivity|].
  apply is_ascii_app; [|repeat constructor].
  induction s as [|c s IH]; [constructor|].
  cbn [flat_map]. apply is_ascii_app; [apply escape_char_ascii | exact IH].
Qed.

Lemma chars_of_uint_ascii (u : Decimal.uint) : is_ascii (chars_of_uint u).
Proof. induction u; cbn [chars_of_uint]; constructor; (reflexivity || assumption). Qed.

Lemma int_repr_ascii (z : Z) : is_ascii (int_repr z).
Proof.
  unfold int_repr. destruct (Z.to_int z).
  - apply chars_of_uint_ascii.
  - constructor; [reflexivity | apply chars_of_uint_ascii].
Qed.

Lemma join_ascii (sep : pystr) (parts : list pystr) :
  is_ascii sep -> Forall is_ascii parts -> is_ascii (join sep parts).
Proof.
  intros Hs. induction 1 as [|p ps Hp Hps IH]; [constructor|].
  cbn [join]. destruct ps as [|q ps]; [exact Hp|].
  apply is_ascii_app; [exact Hp|]. apply is_ascii_app; [exact Hs | exact IH].
Qed.

Lemma json_dumps_ascii (v : json) : is_ascii (json_dumps v).
Proof.
  induction v as [ | b | z | s | l IH | m IH] using json_induction.
  - repeat constructor.
  - destruct b; repeat constructor.
  - apply int_repr_ascii.
  - apply encode_basestring_ascii_is_ascii.
  - cbn [json_dumps]. constructor; [reflexivity|].
    apply is_ascii_app; [|repeat constructor].
    apply join_ascii; [repeat constructor|].
    apply Forall_map. exact IH.
  - cbn [json_dumps]. constructor; [reflexivity|].
    apply is_ascii_app; [|repeat constructor].
    apply join_ascii; [repeat constructor|].
    apply Forall_map. revert IH. apply Forall_impl. intros [k x] Hx.
    apply is_ascii_app; [apply encode_basestring_ascii_is_ascii|].
    repeat (constructor; [reflexivity|]). exact Hx.
Qed.

Lemma json_bytes_ok (v : json) :
  json_bytes v = Ok (map byte_of_N (json_dumps v)).
Proof. apply encode_utf8_ascii, json_dumps_ascii. Qed.

(** *** Strings: [scanstring] reads back what [encode_basestring_ascii] wrote *)

Lemma scanstring_plain (c : N) (r : pystr) :
  c <> 34 -> c <> 92 -> 32 <= c ->
  scanstring (c :: r) = push_char c (scanstring r).
Proof. intros H1 H2 H3. cbn [scanstring]. repeat if_lia. reflexivity. Qed.

Lemma scanstring_backslash (e x : N) (r : pystr) :
  e <> 117 -> backslash e = Some x ->
  scanstring (92 :: e :: r) = push_char x (scanstring r).
Proof.
  intros H1 H2. cbn [scanstring]. change (92 =? 34) with false.
  change (92 =? 92) with true. cbv iota. if_lia. now rewrite H2.
Qed.

Lemma scanstring_u (h1 h2 h3 h4 uni : N) (r : pystr) :
  decode_uXXXX h1 h2 h3 h4 = Some uni -> is_high_surrogate uni = false ->
  scanstring (92 :: 117 :: h1 :: h2 :: h3 :: h4 :: r) = push_char uni (scanstring r).
Proof.
  intros H1 H2. cbn [scanstring]. change (92 =? 34) with false.
  change (92 =? 92) with true. change (117 =? 117) with true. cbv iota.
  now rewrite H1, H2.
Qed.

Lemma scanstring_pair (h1 h2 h3 h4 h5 h6 h7 h8 hi lo : N) (r : pystr) :
  decode_uXXXX h1 h2 h3 h4 = Some hi -> is_high_surrogate hi = true ->
  decode_uXXXX h5 h6 h7 h8 = Some lo -> is_low_surrogate lo = true ->
  scanstring (92 :: 117 :: h1 :: h2 :: h3 :: h4
                 :: 92 :: 117 :: h5 :: h6 :: h7 :: h8 :: r)
  = push_char (join_surrogates hi lo) (scanstring r).
Proof.
  intros H1 H2 H3 H4. cbn [scanstring]. change (92 =? 34) with false.
  change (92 =? 92) with true. change (117 =? 117) with true. cbv iota.
  rewrite H1, H2. cbn [andb]. cbv iota. now rewrite H3, H4.
Qed.

Lemma hex_val_hex_digit (d : N) : d < 16 -> hex_val (hex_digit d) = Some d.
Proof.
  intros H. unfold hex_val, hex_digit. destruct (d <? 10) eqn:E.
  - replace ((48 <=? 48 + d) && (48 + d <=? 57)) with true by lia. f_equal. lia.
  - replace ((48 <=? 87 + d) && (87 + d <=? 57)) with false by lia.
    replace ((97 <=? 87 + d) && (87 + d <=? 102)) with true by lia. f_equal; lia.
Qed.

Lemma decode_hex4 (n : N) :
  n < 65536 ->
  decode_uXXXX (hex_digit (n / 4096 mod 16)) (hex_digit (n / 256 mod 16))
               (hex_digit (n / 16 mod 16)) (hex_digit (n mod 16)) = Some n.
Proof.
  intros Hn. unfold decode_uXXXX.
  rewrite !hex_val_hex_digit by (apply N.mod_upper_bound; discriminate).
  f_equal. div_lia.
Qed.

Lemma lor_low (a b k : N) : b < 2 ^ k -> N.lor (a * 2 ^ k) b = a * 2 ^ k + b.
Proof.
  intros Hb.
  assert (Hand : N.land (a * 2 ^ k) b = 0).
  { apply N.bits_inj. intros i. rewrite N.land_spec, N.bits_0.
    destruct (N.lt_ge_cases i k) as [Hi|Hi].
    - rewrite N.mul_pow2_bits_low by exact Hi. reflexivity.
    - rewrite <- (N.mod_small b (2 ^ k)) by exact Hb.
      rewrite N.mod_pow2_bits_high by exact Hi. apply andb_false_r. }
  rewrite <- N.lxor_lor by exact Hand. symmetry. now apply N.add_nocarry_lxor.
Qed.

Lemma surrogate_split (c : N) :
  65536 <= c -> c < 1114112 ->
  let n := c - 65536 in
  N.lor 55296 (N.land (N.shiftr n 10) 1023) = 55296 + n / 1024
  /\ N.lor 56320 (N.land n 1023) = 56320 + n mod 1024.
Proof.
  intros H1 H2 n.
  assert (Hn : n < 1048576) by (unfold n; lia).
  change 1023 with (N.ones 10). rewrite !N.land_ones, N.shiftr_div_pow2.
  change (2 ^ 10) with 1024.
  rewrite (N.mod_small (n / 1024) 1024)
    by (apply N.Div0.div_lt_upper_bound; exact Hn).
  split.
  - change 55296 with (54 * 2 ^ 10). apply lor_low.
    apply N.Div0.div_lt_upper_bound. exact Hn.
  - change 56320 with (55 * 2 ^ 10). apply lor_low.
    apply N.mod_upper_bound. discriminate.
Qed.

Lemma join_surrogates_split (n : N) :
  n < 1048576 ->
  join_surrogates (55296 + n / 1024) (56320 + n mod 1024) = 65536 + n.
Proof.
  intros Hn. unfold join_surrogates.
  replace (55296 + n / 1024 - 55296) with (n / 1024) by div_lia.
  replace (56320 + n mod 1024 - 56320) with (n mod 1024) by div_lia.
  rewrite N.shiftl_mul_pow2, lor_low by (apply N.mod_upper_bound; discriminate).
  change (2 ^ 10) with 1024. f_equal. div_lia.
Qed.

Lemma scanstring_escape_char (c : N) (tail : pystr) :
  is_scalar c = true ->
  scanstring (escape_char c ++ tail) = push_char c (scanstring tail).
Proof.
  intros Hc. unfold is_scalar, is_surrogate in Hc. unfold escape_char.
  destruct (N.eqb_spec c 34) as [->|N34]; [reflexivity|].
  destruct (N.eqb_spec c 92) as [->|N92]; [reflexivity|].
  destruct (N.eqb_spec c 10) as [->|N10]; [reflexivity|].
  destruct (N.eqb_spec c 13) as [->|N13]; [reflexivity|].
  destruct (N.eqb_spec c 9) as [->|N9]; [reflexivity|].
  destruct (N.eqb_spec c 8) as [->|N8]; [reflexivity|].
  destruct (N.eqb_spec c 12) as [->|N12]; [reflexivity|].
  destruct ((32 <=? c) && (c <=? 126)) eqn:Hp.
  - cbn [List.app]. apply scanstring_plain; lia.
  - destruct (N.ltb_spec c 65536) as [Hlt|Hge].
    + unfold u_escape, hex4. cbn [List.app]. apply scanstring_u.
      * now apply decode_hex4.
      * unfold is_high_surrogate. lia.
    + destruct (surrogate_split c Hge ltac:(lia)) as [Ehi Elo].
      cbv zeta in Ehi, Elo. rewrite Ehi, Elo.
      assert (Hn : c - 65536 < 1048576) by lia.
      assert (Hq : (c - 65536) / 1024 < 1024)
        by (apply N.Div0.div_lt_upper_bound; exact Hn).
      assert (Hr : (c - 65536) mod 1024 < 1024)
        by (apply N.mod_upper_bound; discriminate).
      unfold u_escape, hex4. cbn [List.app].
      rewrite (scanstring_pair _ _ _ _ _ _ _ _
                 (55296 + (c - 65536) / 1024) (56320 + (c - 65536) mod 1024)).
      * rewrite join_surrogates_split by exact Hn.
        replace (65536 + (c - 65536)) with c by (clear - Hge; lia). reflexivity.
      * apply decode_hex4. clear - Hq. lia.
      * unfold is_high_surrogate. clear - Hq. div_lia.
      * apply decode_hex4. clear - Hr. lia.
      * unfold is_low_surrogate. clear - Hr. div_lia.
Qed.

Lemma scanstring_encode (s tail : pystr) :
  forallb is_scalar s = true ->
  scanstring (flat_map escape_char s ++ 34 :: tail) = Ok (s, tail).
Proof.
  induction s as [|c s IH]; intros Hs.
  - reflexivity.
  - cbn [forallb] in Hs. apply andb_prop in Hs as [Hc Hs].
    cbn [flat_map]. rewrite <- app_assoc, scanstring_escape_char by exact Hc.
    now rewrite IH.
Qed.

(** *** Integers: [NUMBER_RE] reads back what [int.__repr__] wrote *)

Lemma cons_digit_stops (rest : pystr) :
  stops rest = true -> scan_digits rest = (Nil, rest).
Proof.
  destruct rest as [|c r]; [reflexivity|]. cbn [stops scan_digits]. intros H.
  unfold cons_digit. repeat if_lia. reflexivity.
Qed.

Lemma scan_digits_chars (u : Decimal.uint) (rest : pystr) :
  stops rest = true -> scan_digits (chars_of_uint u ++ rest) = (u, rest).
Proof.
  intros H. induction u; cbn [chars_of_uint List.app];
    [now apply cons_digit_stops | ..];
    cbn [scan_digits]; unfold cons_digit;
    repeat match goal with
           | |- context [?a =? ?b] =>
               let v := eval vm_compute in (a =? b) in change (a =? b) with v
           end;
    cbv iota; now rewrite IHu.
Qed.

Lemma pos_to_uint_head (p : positive) :
  exists c r, chars_of_uint (Pos.to_uint p) = c :: r /\ 49 <= c /\ c <= 57.
Proof.
  pose proof (DecimalPos.Unsigned.to_uint_nonnil p) as Hnil.
  pose proof (DecimalPos.Unsigned.to_uint_nonzero p) as Hnz.
  assert (Hnorm : unorm (Pos.to_uint p) = Pos.to_uint p).
  { rewrite <- (DecimalPos.Unsigned.to_of (Pos.to_uint p)).
    now rewrite DecimalPos.Unsigned.of_to. }
  destruct (Pos.to_uint p) as [|u|u|u|u|u|u|u|u|u|u]; try congruence;
    try (do 2 eexists; split; [reflexivity|]; split; discriminate).
  exfalso. rewrite unorm_D0 in Hnorm. unfold unorm in Hnorm.
  pose proof (nzhead_nonzero u u) as Hh.
  destruct (nzhead u); congruence.
Qed.

Lemma scan_frac_stops (rest : pystr) : stops rest = true -> scan_frac rest = None.
Proof.
  destruct rest as [|c r]; [reflexivity|]. cbn [stops scan_frac]. intros H.
  if_lia. reflexivity.
Qed.

Lemma scan_exp_stops (rest : pystr) : stops rest = true -> scan_exp rest = None.
Proof.
  destruct rest as [|c r]; [reflexivity|]. cbn [stops scan_exp]. intros H.
  if_lia. reflexivity.
Qed.

Lemma scan_integer_pos (p : positive) (rest : pystr) :
  stops rest = true ->
  scan_integer (chars_of_uint (Pos.to_uint p) ++ rest) = Some (Pos.to_uint p, rest).
Proof.
  intros Hst. pose proof (scan_digits_chars (Pos.to_uint p) rest Hst) as Hs.
  destruct (pos_to_uint_head p) as (c & r & E & H1 & H2).
  rewrite E in *. cbn [List.app] in *. unfold scan_integer.
  unfold is_digit. repeat if_lia. now rewrite Hs.
Qed.

Lemma match_number_int_repr (z : Z) (rest : pystr) :
  stops rest = true ->
  exists neg u, match_number (int_repr z ++ rest) = Some (neg, u, false, rest)
                /\ int_of_parts neg u = z.
Proof.
  intros Hst. unfold int_repr, int_of_parts.
  pose proof (DecimalZ.of_to z) as Hz.
  destruct z as [|p|p]; cbn [Z.to_int] in *.
  - exists false, (D0 Nil). split; [|reflexivity].
    unfold match_number. cbn [chars_of_uint List.app]. change (48 =? 45) with false.
    cbv iota. cbn [scan_integer]. change (48 =? 48) with true. cbv iota.
    now rewrite scan_frac_stops, scan_exp_stops.
  - exists false, (Pos.to_uint p). split; [|exact Hz].
    pose proof (scan_integer_pos p rest Hst) as Hi.
    destruct (pos_to_uint_head p) as (c & r & E & H1 & H2).
    unfold match_number. rewrite E in *. cbn [List.app] in *.
    if_lia. rewrite Hi. now rewrite scan_frac_stops, scan_exp_stops.
  - exists true, (Pos.to_uint p). split; [|exact Hz].
    unfold match_number. cbn [List.app]. change (45 =? 45) with true. cbv iota.
    rewrite scan_integer_pos by exact Hst.
    now rewrite scan_frac_stops, scan_exp_stops.
Qed.

Lemma int_repr_head (z : Z) :
  exists c r, int_repr z = c :: r /\ (c = 45 \/ (48 <= c /\ c <= 57)).
Proof.
  unfold int_repr. destruct z as [|p|p]; cbn [Z.to_int].
  - exists 48, []. split; [reflexivity|]. right. split; discriminate.
  - destruct (pos_to_uint_head p) as (c & r & E & H1 & H2).
    exists c, r. split; [exact E|]. right. lia.
  - eexists _, _. split; [reflexivity|]. now left.
Qed.

(** *** Values *)

Lemma pystr_eqb_eq (a b : pystr) : pystr_eqb a b = true <-> a = b.
Proof.
  revert b. induction a as [|x a IH]; intros [|y b]; cbn [pystr_eqb];
    try (split; [discriminate | congruence]); [tauto|].
  rewrite andb_true_iff, N.eqb_eq, IH. split; [intros [-> ->] | intros [= -> ->]]; auto.
Qed.

Lemma dict_set_fresh (k : pystr) (v : json) (d : list (pystr * json)) :
  existsb (pystr_eqb k) (map fst d) = false -> dict_set k v d = d ++ [(k, v)].
Proof.
  induction d as [|[k' v'] d IH]; [reflexivity|].
  cbn [map fst existsb dict_set List.app]. intros H.
  apply orb_false_elim in H as [H1 H2]. rewrite H1. now rewrite IH.
Qed.

Lemma existsb_app_false (k : pystr) (a b : list pystr) :
  existsb (pystr_eqb k) a = false -> existsb (pystr_eqb k) b = false ->
  existsb (pystr_eqb k) (a ++ b) = false.
Proof. intros Ha Hb. rewrite existsb_app, Ha, Hb. reflexivity. Qed.

Lemma fold_dict_set_distinct (m acc : list (pystr * json)) :
  distinct (map fst m) = true ->
  (forall k, In k (map fst m) -> existsb (pystr_eqb k) (map fst acc) = false) ->
  fold_left (fun d kv => dict_set (fst kv) (snd kv) d) m acc = acc ++ m.
Proof.
  revert acc. induction m as [|[k v] m IH]; intros acc Hd Hacc.
  - cbn. now rewrite app_nil_r.
  - cbn [map fst distinct] in Hd. apply andb_prop in Hd as [Hk Hd].
    apply negb_true_iff in Hk.
    cbn [fold_left fst snd].
    rewrite dict_set_fresh by (apply Hacc; now left).
    rewrite IH; [now rewrite <- app_assoc | exact Hd |].
    intros k' Hin. rewrite map_app. apply existsb_app_false.
    + apply Hacc. now right.
    + cbn [map fst existsb]. rewrite orb_false_r.
      destruct (pystr_eqb k' k) eqn:E; [|reflexivity].
      apply pystr_eqb_eq in E. subst k'.
      assert (Hex : existsb (pystr_eqb k) (map fst m) = true).
      { apply existsb_exists. exists k. split; [exact Hin | now apply pystr_eqb_eq]. }
      congruence.
Qed.

Lemma dict_of_pairs_distinct (m : list (pystr * json)) :
  distinct (map fst m) = true -> dict_of_pairs m = m.
Proof.
  intros Hd. unfold dict_of_pairs. rewrite fold_dict_set_distinct; auto.
Qed.

Lemma value_start_skip_ws (c : N) (r : pystr) :
  value_start c = true -> skip_ws (c :: r) = c :: r.
Proof.
  intros H. cbn [skip_ws]. unfold value_start, is_digit in H. unfold is_ws.
  if_lia. reflexivity.
Qed.

Lemma json_dumps_head (v : json) :
  exists c r, json_dumps v = c :: r /\ value_start c = true.
Proof.
  destruct v as [ | [|] | z | s | l | m]; cbn [json_dumps];
    try (eexists _, _; split; reflexivity).
  destruct (int_repr_head z) as (c & r & E & H).
  exists c, r. split; [exact E|]. unfold value_start, is_digit. lia.
Qed.

Lemma skip_ws_dumps (v : json) (rest : pystr) :
  skip_ws (json_dumps v ++ rest) = json_dumps v ++ rest.
Proof.
  destruct (json_dumps_head v) as (c & r & E & H). rewrite E.
  now apply value_start_skip_ws.
Qed.

Lemma length_join_ge (sep : pystr) (parts : list pystr) (p : pystr) :
  In p parts -> (length p <= length (join sep parts))%nat.
Proof.
  induction parts as [|q ps IH]; [intros []|].
  intros Hin. cbn [join]. destruct ps as [|q' ps].
  - destruct Hin as [->|[]]. lia.
  - rewrite !length_app. destruct Hin as [->|Hin]; [lia|].
    specialize (IH Hin). lia.
Qed.

Lemma length_join_count (sep : pystr) (parts : list pystr) :
  Forall (fun p => p <> []) parts ->
  (length parts <= length (join sep parts))%nat.
Proof.
  induction 1 as [|q ps Hq _ IH]; [cbn; lia|].
  cbn [join]. destruct ps as [|q' ps].
  - destruct q; [congruence | cbn; lia].
  - rewrite !length_app. destruct q; [congruence|]. cbn [length] in *. lia.
Qed.

Lemma scan_once_literal (fuel : nat) (c : N) (r : pystr) :
  c <> 34 -> c <> 123 -> c <> 91 ->
  scan_once (S fuel) (c :: r) =
    match strip_prefix [110; 117; 108; 108] (c :: r) with
    | Some r' => Ok (JNull, r')
    | None =>
    match strip_prefix [116; 114; 117; 101] (c :: r) with
    | Some r' => Ok (JBool true, r')
    | None =>
    match strip_prefix [102; 97; 108; 115; 101] (c :: r) with
    | Some r' => Ok (JBool false, r')
    | None =>
    match match_number (c :: r) with
    | Some (neg, u, false, r') => Ok (JInt (int_of_parts neg u), r')
    | Some (_, _, true, _) => Raise FloatLiteral
    | None =>
        if starts_with [78; 97; 78] (c :: r)
           || starts_with [73; 110; 102; 105; 110; 105; 116; 121] (c :: r)
           || starts_with [45; 73; 110; 102; 105; 110; 105; 116; 121] (c :: r)
        then Raise FloatLiteral
        else Raise (JSONDecodeError "Expecting value")
    end end end end.
Proof.
  intros H1 H2 H3. cbn [scan_once].
  apply N.eqb_neq in H1, H2, H3. rewrite H1, H2, H3. reflexivity.
Qed.

Lemma scan_once_string (fuel : nat) (r : pystr) :
  scan_once (S fuel) (34 :: r) = (p <- scanstring r ;; Ok (JStr (fst p), snd p)).
Proof. reflexivity. Qed.

Lemma scan_once_array (fuel : nat) (r : pystr) :
  scan_once (S fuel) (91 :: r) = JSONArray (scan_once fuel) fuel r.
Proof. reflexivity. Qed.

Lemma scan_once_object (fuel : nat) (r : pystr) :
  scan_once (S fuel) (123 :: r) = JSONObject (scan_once fuel) fuel r.
Proof. reflexivity. Qed.

Lemma reads_back_int (z : Z) : reads_back (JInt z).
Proof.
  intros _ fuel rest Hf Hst. cbn [json_dumps] in *.
  destruct (match_number_int_repr z rest Hst) as (neg & u & Hm & Hz).
  destruct (int_repr_head z) as (c & r & E & Hc).
  rewrite E in *. cbn [List.app length] in *.
  destruct fuel as [|fuel]; [lia|].
  rewrite scan_once_literal by lia.
  cbn [strip_prefix]. repeat if_lia. rewrite Hm, Hz. reflexivity.
Qed.

Lemma reads_back_str (s : pystr) : reads_back (JStr s).
Proof.
  intros Hs fuel rest Hf Hst. cbn [json_dumps representable] in *.
  unfold encode_basestring_ascii in *. cbn [List.app length] in *.
  destruct fuel as [|fuel]; [lia|].
  rewrite scan_once_string, <- app_assoc. cbn [List.app].
  rewrite scanstring_encode by exact Hs. reflexivity.
Qed.

Lemma stops_comma (r : pystr) : stops (44 :: r) = true.
Proof. reflexivity. Qed.

Lemma array_items_dumps (l : list json) :
  l <> [] -> Forall reads_back l -> forallb representable l = true ->
  forall fuel n rest,
    Forall (fun x => (length (json_dumps x) <= fuel)%nat) l ->
    (length l <= n)%nat ->
    array_items (scan_once fuel) n (join [44; 32] (map json_dumps l) ++ 93 :: rest)
    = Ok (l, rest).
Proof.
  induction l as [|x l IH]; [congruence|].
  intros _ Hrb Hrep fuel n rest Hlen Hn.
  apply Forall_cons_iff in Hrb as [Hx Hrb].
  apply Forall_cons_iff in Hlen as [Hlx Hlen].
  cbn [forallb] in Hrep. apply andb_prop in Hrep as [Hrx Hrep].
  cbn [length] in Hn. destruct n as [|n]; [lia|].
  cbn [map join]. destruct l as [|y l].
  - cbn [map]. cbn [array_items].
    rewrite (Hx Hrx fuel (93 :: rest) Hlx eq_refl). reflexivity.
  - remember (y :: l) as l' eqn:El'.
    assert (Hne : l' <> []) by (subst; discriminate).
    replace (match map json_dumps l' with
             | [] => json_dumps x
             | _ :: _ => json_dumps x ++ [44; 32] ++ join [44; 32] (map json_dumps l')
             end)
      with (json_dumps x ++ [44; 32] ++ join [44; 32] (map json_dumps l'))
      by (subst l'; reflexivity).
    rewrite <- !app_assoc. cbn [List.app]. cbn [array_items].
    rewrite (Hx Hrx fuel _ Hlx (stops_comma _)). cbn [bind fst snd skip_ws].
    change (is_ws 44) with false. cbv iota.
    change (44 =? 93) with false. change (44 =? 44) with true. cbv iota.
    assert (Hsk : skip_ws (32 :: join [44; 32] (map json_dumps l') ++ 93 :: rest)
                  = join [44; 32] (map json_dumps l') ++ 93 :: rest).
    { cbn [skip_ws]. change (is_ws 32) with true. cbv iota.
      subst l'. cbn [map join].
      destruct (map json_dumps l); [apply skip_ws_dumps|].
      rewrite <- app_assoc. apply skip_ws_dumps. }
    rewrite Hsk.
    rewrite (IH Hne Hrb Hrep fuel n rest Hlen ltac:(cbn [length] in Hn; lia)).
    reflexivity.
Qed.

Lemma reads_back_arr (l : list json) : Forall reads_back l -> reads_back (JArr l).
Proof.
  intros IH Hrep fuel rest Hf Hst. cbn [json_dumps representable] in *.
  cbn [List.app length] in *. destruct fuel as [|fuel]; [lia|].
  rewrite scan_once_array, <- app_assoc. cbn [List.app].
  rewrite length_app in Hf. cbn [length] in Hf.
  destruct l as [|x l].
  - reflexivity.
  - remember (x :: l) as l' eqn:El'.
    assert (Hne : l' <> []) by (subst; discriminate).
    unfold JSONArray.
    assert (Hhd : exists c r,
               join [44; 32] (map json_dumps l') ++ 93 :: rest = c :: r
               /\ value_start c = true).
    { subst l'. cbn [map join]. destruct (json_dumps_head x) as (c & r & E & H).
      rewrite E. destruct (map json_dumps l); cbn [List.app]; eauto. }
    destruct Hhd as (c & r & E & Hc).
    rewrite E, (value_start_skip_ws c r Hc).
    replace (c =? 93) with false by (unfold value_start, is_digit in Hc; lia).
    rewrite <- E.
    rewrite (array_items_dumps l' Hne IH Hrep fuel fuel rest).
    + reflexivity.
    + apply Forall_forall. intros y Hy.
      pose proof (length_join_ge [44; 32] (map json_dumps l') (json_dumps y)
                    (in_map json_dumps _ _ Hy)). lia.
    + pose proof (length_join_count [44; 32] (map json_dumps l')) as Hcnt.
      rewrite length_map in Hcnt.
      assert (Forall (fun p : pystr => p <> []) (map json_dumps l')).
      { apply Forall_map, Forall_forall. intros y _.
        destruct (json_dumps_head y) as (c' & r' & E' & _). rewrite E'. discriminate. }
      specialize (Hcnt H). lia.
Qed.

Lemma pair_text_split (k : pystr) (x : json) (tail : pystr) :
  pair_text (k, x) ++ tail
  = 34 :: (flat_map escape_char k ++ 34 :: 58 :: 32 :: json_dumps x ++ tail).
Proof.
  unfold pair_text, encode_basestring_ascii. cbn [fst snd List.app].
  now rewrite <- !app_assoc.
Qed.

Lemma skip_ws_space (r : pystr) : skip_ws (32 :: r) = skip_ws r.
Proof. reflexivity. Qed.

Lemma join_cons (sep p q : pystr) (ps : list pystr) :
  join sep (p :: q :: ps) = p ++ sep ++ join sep (q :: ps).
Proof. reflexivity. Qed.

Lemma object_pairs_dumps (m : list (pystr * json)) :
  m <> [] ->
  Forall (fun kv => reads_back (snd kv)) m ->
  forallb (fun kv => text_ok (fst kv) && representable (snd kv)) m = true ->
  forall fuel n rest,
    Forall (fun kv => (length (json_dumps (snd kv)) <= fuel)%nat) m ->
    (length m <= n)%nat ->
    exists t,
      join [44; 32] (map pair_text m) ++ 125 :: rest = 34 :: t
      /\ object_pairs (scan_once fuel) n t = Ok (m, rest).
Proof.
  induction m as [|[k x] m IH]; [congruence|].
  intros _ Hrb Hrep fuel n rest Hlen Hn.
  apply Forall_cons_iff in Hrb as [Hx Hrb].
  apply Forall_cons_iff in Hlen as [Hlx Hlen].
  cbn [forallb fst snd] in *. apply andb_prop in Hrep as [Hkx Hrep].
  apply andb_prop in Hkx as [Hk Hrx].
  cbn [length] in Hn. destruct n as [|n]; [lia|].
  destruct m as [|y m].
  - cbn [map join]. rewrite pair_text_split. eexists. split; [reflexivity|].
    cbn [object_pairs]. rewrite scanstring_encode by exact Hk.
    cbn [bind fst snd skip_ws]. change (is_ws 58) with false. cbv iota.
    change (58 =? 58) with true. cbv iota.
    rewrite skip_ws_space, skip_ws_dumps, (Hx Hrx fuel (125 :: rest) Hlx eq_refl).
    reflexivity.
  - assert (Hne : y :: m <> []) by discriminate.
    cbn [map]. rewrite join_cons.
    change (pair_text y :: map pair_text m) with (map pair_text (y :: m)).
    destruct (IH Hne Hrb Hrep fuel n rest Hlen ltac:(cbn [length] in *; lia))
      as (t & Et & Hobj).
    rewrite <- !app_assoc, pair_text_split. eexists. split; [reflexivity|].
    cbn [object_pairs]. rewrite scanstring_encode by exact Hk.
    cbn [bind fst snd skip_ws]. change (is_ws 58) with false. cbv iota.
    change (58 =? 58) with true. cbv iota.
    cbn [List.app]. rewrite Et.
    rewrite skip_ws_space, skip_ws_dumps, (Hx Hrx fuel _ Hlx (stops_comma _)).
    cbn [bind fst snd skip_ws]. change (is_ws 44) with false. cbv iota.
    change (44 =? 125) with false. change (44 =? 44) with true. cbv iota.
    rewrite skip_ws_space. cbn [skip_ws]. change (is_ws 34) with false. cbv iota.
    change (34 =? 34) with true. cbv iota.
    rewrite Hobj. reflexivity.
Qed.

Lemma reads_back_obj (m : list (pystr * json)) :
  Forall (fun kv => reads_back (snd kv)) m -> reads_back (JObj m).
Proof.
  intros IH Hrep fuel rest Hf Hst. cbn [json_dumps representable] in *.
  apply andb_prop in Hrep as [Hrep Hd].
  cbn [List.app length] in *. destruct fuel as [|fuel]; [lia|].
  rewrite scan_once_object, <- app_assoc. cbn [List.app].
  rewrite length_app in Hf. cbn [length] in Hf.
  fold pair_text in *.
  change (fun kv : pystr * json =>
            encode_basestring_ascii (fst kv) ++ 58 :: 32 :: json_dumps (snd kv))
    with pair_text in *.
  destruct m as [|kx m].
  - reflexivity.
  - remember (kx :: m) as m' eqn:Em'.
    assert (Hne : m' <> []) by (subst; discriminate).
    destruct (object_pairs_dumps m' Hne IH Hrep fuel fuel rest) as (t & Et & Hobj).
    + apply Forall_forall. intros y Hy.
      pose proof (length_join_ge [44; 32] (map pair_text m') (pair_text y)
                    (in_map pair_text _ _ Hy)) as Hj.
      unfold pair_text in Hj at 1. rewrite length_app in Hj. cbn [length] in Hj.
      clear - Hj Hf. unfold pystr in *. lia.
    + pose proof (length_join_count [44; 32] (map pair_text m')) as Hcnt.
      rewrite length_map in Hcnt.
      assert (Forall (fun p : pystr => p <> []) (map pair_text m')).
      { apply Forall_map, Forall_forall. intros y _. discriminate. }
      specialize (Hcnt H). clear - Hcnt Hf. unfold pystr in *. lia.
    + unfold JSONObject. rewrite Et. cbn [skip_ws]. change (is_ws 34) with false.
      cbv iota. change (34 =? 125) with false. change (34 =? 34) with true.
      cbv iota. rewrite Hobj. cbn [bind fst snd].
      now rewrite dict_of_pairs_distinct.
Qed.

Lemma scan_once_dumps (v : json) : reads_back v.
Proof.
  induction v as [ | b | z | s | l IH | m IH] using json_induction.
  - intros _ fuel rest Hf Hst. cbn [json_dumps length] in Hf.
    destruct fuel as [|fuel]; [lia | reflexivity].
  - intros _ fuel rest Hf Hst. destruct b; cbn [json_dumps length] in Hf;
      (destruct fuel as [|fuel]; [lia | reflexivity]).
  - apply reads_back_int.
  - apply reads_back_str.
  - now apply reads_back_arr.
  - now apply reads_back_obj.
Qed.

Lemma json_dumps_no_bom (v : json) : starts_with [65279] (json_dumps v) = false.
Proof.
  destruct (json_dumps_head v) as (c & r & E & H). rewrite E.
  unfold starts_with. cbn [strip_prefix].
  replace (65279 =? c) with false by (unfold value_start, is_digit in H; lia).
  reflexivity.
Qed.

Theorem json_loads_dumps (v : json) :
  representable v = true -> json_loads (json_dumps v) = Ok v.
Proof.
  intros Hrep. unfold json_loads. rewrite json_dumps_no_bom. unfold decode.
  pose proof (skip_ws_dumps v []) as Hsk. rewrite app_nil_r in Hsk. rewrite Hsk.
  pose proof (scan_once_dumps v Hrep (S (length (json_dumps v))) []
                ltac:(lia) eq_refl) as Hs.
  rewrite app_nil_r in Hs. rewrite Hs. reflexivity.
Qed.

(** ** The model on known inputs *)

Example dumps_screenshot_command :
  json_dumps screenshot_command
  = txt "{" ++ quoted "tool" ++ txt ": " ++ quoted "screenshot" ++ txt ", "
    ++ quoted "args" ++ txt ": {}}".
Proof. reflexivity. Qed.

(** A line feed, e with an acute accent, a code point above U+FFFF and a
    quote: a short escape, one [\u] escape, a surrogate pair and an escaped
    quote. *)
Example dumps_escapes :
  json_dumps (JStr [10; 233; 128512; 34])
  = [34] ++ txt "\n\u00e9\ud83d\ude00" ++ [92; 34; 34].
Proof. reflexivity. Qed.

Example loads_escapes :
  json_loads ([34] ++ txt "\n\u00E9\ud83d\ude00\/" ++ [34])
  = Ok (JStr [10; 233; 128512; 47]).
Proof. reflexivity. Qed.

Example loads_white_space :
  json_loads (txt " [1, -20 , [ ] , {} ,true,null ] ")
  = Ok (JArr [JInt 1; JInt (-20); JArr []; JObj []; JBool true; JNull]).
Proof. reflexivity. Qed.

Example loads_duplicate_keys :
  json_loads (txt "{" ++ quoted "a" ++ txt ":1," ++ quoted "b" ++ txt ":2,"
              ++ quoted "a" ++ txt ":3}")
  = Ok (JObj [(txt "a", JInt 3); (txt "b", JInt 2)]).
Proof. reflexivity. Qed.

Example loads_leading_zero :
  json_loads (txt "01") = Raise (JSONDecodeError "Extra data").
Proof. reflexivity. Qed.

Example loads_trailing_comma :
  json_loads (txt "[1,]") = Raise (JSONDecodeError "Expecting value").
Proof. reflexivity. Qed.

Example loads_float : json_loads (txt "[1, 2.5e3]") = Raise FloatLiteral.
Proof. reflexivity. Qed.

(** Why [representable] asks for Unicode scalar values: a Python string of
    the two surrogates U+D83D and U+DE00 is written as two escapes, which
    [json.loads] reads as the single code point U+1F600. *)
Example loads_dumps_surrogates :
  json_loads (json_dumps (JStr [55357; 56832])) = Ok (JStr [128512]).
Proof. reflexivity. Qed.

Example decode_utf8_two_bytes : decode_utf8 [xc3; xa9] = Ok [233].
Proof. reflexivity. Qed.

Example decode_utf8_overlong : decode_utf8 [xc0; x80] = Raise UnicodeDecodeError.
Proof. reflexivity. Qed.

Example encode_utf8_four_bytes : encode_utf8 [128512] = Ok [xf0; x9f; x98; x80].
Proof. reflexivity. Qed.

Example pack_little_endian : struct_pack_I 258 = Ok [x02; x01; x00; x00].
Proof. reflexivity. Qed.

(** ** The fuel of [json_loads] is never used up *)

Ltac split_match H :=
  repeat match type of H with
         | context [if ?b then _ else _] => destruct b eqn:?
         | context [match ?x with _ => _ end] => destruct x eqn:?
         end.

Lemma skip_ws_length (s : pystr) : (length (skip_ws s) <= length s)%nat.
Proof.
  induction s as [|c s IH]; [cbn; lia|].
  cbn [skip_ws]. destruct (is_ws c); cbn [length] in *; lia.
Qed.

Lemma push_char_ok (c : N) (m : result (pystr * pystr)) (x r : pystr) :
  push_char c m = Ok (x, r) -> exists x', m = Ok (x', r).
Proof.
  unfold push_char. destruct m as [[x' r']|e]; cbn; [|discriminate].
  intros [= <- <-]. eauto.
Qed.

Lemma push_char_fuel (c : N) (m : result (pystr * pystr)) :
  push_char c m = Raise OutOfFuel -> m = Raise OutOfFuel.
Proof. unfold push_char. destruct m as [[x' r']|e]; cbn; congruence. Qed.

Lemma scanstring_sound (n : nat) :
  forall s, (length s <= n)%nat ->
    (forall x r, scanstring s = Ok (x, r) -> (length r < length s)%nat)
    /\ scanstring s <> Raise OutOfFuel.
Proof.
  induction n as [|n IH]; intros s Hs.
  - destruct s; [|cbn in Hs; lia]. split; [intros x r H | intros H]; discriminate H.
  - destruct s as [|c s]; [split; [intros x r H | intros H]; discriminate H|].
    cbn [length] in Hs.
    assert (IH' : forall t, (length t <= length s)%nat ->
                    (forall x r, scanstring t = Ok (x, r) -> (length r < S (length t))%nat)
                    /\ scanstring t <> Raise OutOfFuel).
    { intros t Ht. destruct (IH t ltac:(lia)) as [H1 H2]. split; [|exact H2].
      intros x r H. specialize (H1 x r H). lia. }
    split.
    + intros x r H. cbn [scanstring] in H. cbn [length].
      split_match H; try discriminate H;
        try (injection H as <- <-; cbn [length]; lia);
        apply push_char_ok in H as [x' H];
        match type of H with
        | scanstring ?t = _ =>
            destruct (IH' t ltac:(subst; cbn [length]; lia)) as [H1 _];
            specialize (H1 _ _ H); subst; cbn [length] in *; lia
        end.
    + intros H. cbn [scanstring] in H.
      split_match H; try discriminate H;
        apply push_char_fuel in H;
        match type of H with
        | scanstring ?t = _ =>
            destruct (IH' t ltac:(subst; cbn [length]; lia)) as [_ H2]; exact (H2 H)
        end.
Qed.

Lemma scanstring_consumes : consumes scanstring.
Proof.
  intros s x r H.
  destruct (scanstring_sound (length s) s (le_n _)) as [H1 _]. exact (H1 x r H).
Qed.

Lemma scanstring_no_fuel (s : pystr) : scanstring s <> Raise OutOfFuel.
Proof. now apply (scanstring_sound (length s) s (le_n _)). Qed.

Lemma scan_digits_length (s : pystr) :
  (length (snd (scan_digits s)) <= length s)%nat.
Proof.
  induction s as [|c s IH]; [cbn; lia|].
  cbn [scan_digits]. destruct (cons_digit c); cbn [snd length] in *; lia.
Qed.

Lemma strip_prefix_length (p s r : pystr) :
  strip_prefix p s = Some r -> length s = (length p + length r)%nat.
Proof.
  revert s. induction p as [|x p IH]; intros s H.
  - cbn in H. injection H as <-. reflexivity.
  - destruct s as [|y s]; [discriminate H|]. cbn [strip_prefix] in H.
    destruct (x =? y); [|discriminate H]. cbn [length]. now rewrite (IH s H).
Qed.

Lemma scan_integer_length (s : pystr) (u : Decimal.uint) (r : pystr) :
  scan_integer s = Some (u, r) -> (length r < length s)%nat.
Proof.
  destruct s as [|c s]; [discriminate|]. unfold scan_integer.
  destruct (c =? 48).
  - intros [= <- <-]. cbn [length]. lia.
  - destruct (is_digit c) eqn:Hd; [|discriminate].
    pose proof (scan_digits_length s) as Hl.
    cbn [scan_digits]. destruct (cons_digit c) eqn:Hc.
    + intros [= <- <-]. cbn [snd length]. lia.
    + unfold cons_digit, is_digit in *.
      repeat match type of Hc with
             | (if ?b then _ else _) = None => destruct b eqn:?; [discriminate Hc|]
             end. lia.
Qed.

Lemma scan_frac_length (s r : pystr) :
  scan_frac s = Some r -> (length r <= length s)%nat.
Proof.
  destruct s as [|c s]; [discriminate|]. unfold scan_frac.
  destruct (c =? 46); [|discriminate].
  pose proof (scan_digits_length s) as Hl.
  destruct (scan_digits s) as [d r']. cbn [snd] in Hl.
  destruct d; intros [= <-]; cbn [length]; lia.
Qed.

Lemma scan_exp_length (s r : pystr) :
  scan_exp s = Some r -> (length r <= length s)%nat.
Proof.
  destruct s as [|c s]; [discriminate|]. unfold scan_exp.
  destruct ((c =? 101) || (c =? 69)); [|discriminate].
  set (r1 := match s with
             | [] => s
             | sg :: r' => if (sg =? 45) || (sg =? 43) then r' else s
             end).
  assert (Hr1 : (length r1 <= length s)%nat).
  { unfold r1. destruct s as [|sg s']; [lia|].
    destruct ((sg =? 45) || (sg =? 43)); cbn [length]; lia. }
  pose proof (scan_digits_length r1) as Hl.
  destruct (scan_digits r1) as [d r']. cbn [snd] in Hl.
  destruct d; intros [= <-]; cbn [length]; lia.
Qed.

Lemma match_number_length (s : pystr) (neg : bool) (u : Decimal.uint)
  (f : bool) (r : pystr) :
  match_number s = Some (neg, u, f, r) -> (length r < length s)%nat.
Proof.
  unfold match_number.
  set (p := match s with
            | [] => (false, s)
            | c :: r0 => if c =? 45 then (true, r0) else (false, s)
            end).
  assert (Hp : (length (snd p) <= length s)%nat).
  { unfold p. destruct s as [|c r0]; [cbn; lia|].
    destruct (c =? 45); cbn [snd length]; lia. }
  destruct p as [ng s1]. cbn [snd] in Hp.
  destruct (scan_integer s1) as [[u' r1]|] eqn:Hi; [|discriminate].
  apply scan_integer_length in Hi.
  destruct (scan_frac r1) as [r2|] eqn:Hf.
  - apply scan_frac_length in Hf.
    destruct (scan_exp r2) as [r3|] eqn:He.
    + apply scan_exp_length in He. intros [= _ _ _ <-]. lia.
    + intros [= _ _ _ <-]. lia.
  - destruct (scan_exp r1) as [r3|] eqn:He.
    + apply scan_exp_length in He. intros [= _ _ _ <-]. lia.
    + intros [= _ _ _ <-]. lia.
Qed.

Lemma bind_ok_inv {A B : Type} (m : result A) (k : A -> result B) (b : B) :
  bind m k = Ok b -> exists a, m = Ok a /\ k a = Ok b.
Proof. destruct m as [a|e]; cbn; [eauto | discriminate]. Qed.

Lemma bind_raise_inv {A B : Type} (m : result A) (k : A -> result B) (e : exn) :
  bind m k = Raise e -> m = Raise e \/ exists a, m = Ok a /\ k a = Raise e.
Proof. destruct m as [a|e']; cbn; [eauto | intros [= ->]; now left]. Qed.

Lemma array_items_consumes (scan : pystr -> result (json * pystr)) (n : nat) :
  consumes scan -> consumes (array_items scan n).
Proof.
  intros Hscan. induction n as [|n IH]; intros s v r H; [discriminate H|].
  cbn [array_items] in H. apply bind_ok_inv in H as ([x r1] & Hx & H).
  apply Hscan in Hx. cbn [fst snd] in H.
  pose proof (skip_ws_length r1) as Hw.
  destruct (skip_ws r1) as [|c r2]; [discriminate H|]. cbn [length] in Hw.
  destruct (c =? 93).
  - injection H as _ <-. lia.
  - destruct (c =? 44); [|discriminate H].
    apply bind_ok_inv in H as ([vs r3] & Hq & H). apply IH in Hq.
    pose proof (skip_ws_length r2). injection H as _ <-. cbn [snd]. lia.
Qed.

Lemma array_items_fueled (scan : pystr -> result (json * pystr)) (N n : nat) :
  consumes scan -> fueled scan N ->
  forall s, (length s < N)%nat -> (length s < n)%nat ->
            array_items scan n s <> Raise OutOfFuel.
Proof.
  intros Hc Hf. induction n as [|n IH]; intros s HN Hn H; [lia|].
  cbn [array_items] in H. apply bind_raise_inv in H as [H|([x r1] & Hx & H)].
  - exact (Hf s HN H).
  - apply Hc in Hx. cbn [fst snd] in H.
    pose proof (skip_ws_length r1) as Hw.
    destruct (skip_ws r1) as [|c r2]; [discriminate H|]. cbn [length] in Hw.
    destruct (c =? 93); [discriminate H|].
    destruct (c =? 44); [|discriminate H].
    pose proof (skip_ws_length r2).
    apply bind_raise_inv in H as [H|(q & _ & H)]; [|discriminate H].
    apply (IH (skip_ws r2)); [lia | lia | exact H].
Qed.

Lemma object_pairs_consumes (scan : pystr -> result (json * pystr)) (n : nat) :
  consumes scan -> consumes (object_pairs scan n).
Proof.
  intros Hscan. induction n as [|n IH]; intros s v r H; [discriminate H|].
  cbn [object_pairs] in H. apply bind_ok_inv in H as ([k r0] & Hk & H).
  apply scanstring_consumes in Hk. cbn [fst snd] in H.
  pose proof (skip_ws_length r0) as Hw0.
  destruct (skip_ws r0) as [|c r1]; [discriminate H|]. cbn [length] in Hw0.
  destruct (c =? 58); [|discriminate H].
  apply bind_ok_inv in H as ([x r2] & Hx & H). apply Hscan in Hx.
  pose proof (skip_ws_length r1) as Hw1. cbn [fst snd] in H.
  pose proof (skip_ws_length r2) as Hw2.
  destruct (skip_ws r2) as [|c1 r3]; [discriminate H|]. cbn [length] in Hw2.
  destruct (c1 =? 125).
  - injection H as _ <-. lia.
  - destruct (c1 =? 44); [|discriminate H].
    pose proof (skip_ws_length r3) as Hw3.
    destruct (skip_ws r3) as [|c2 r4]; [discriminate H|]. cbn [length] in Hw3.
    destruct (c2 =? 34); [|discriminate H].
    apply bind_ok_inv in H as ([ps r5] & Hq & H). apply IH in Hq.
    injection H as _ <-. cbn [snd]. lia.
Qed.

Lemma object_pairs_fueled (scan : pystr -> result (json * pystr)) (N n : nat) :
  consumes scan -> fueled scan N ->
  forall s, (length s < N)%nat -> (length s < n)%nat ->
            object_pairs scan n s <> Raise OutOfFuel.
Proof.
  intros Hc Hf. induction n as [|n IH]; intros s HN Hn H; [lia|].
  cbn [object_pairs] in H. apply bind_raise_inv in H as [H|([k r0] & Hk & H)].
  - exact (scanstring_no_fuel s H).
  - apply scanstring_consumes in Hk. cbn [fst snd] in H.
    pose proof (skip_ws_length r0) as Hw0.
    destruct (skip_ws r0) as [|c r1]; [discriminate H|]. cbn [length] in Hw0.
    destruct (c =? 58); [|discriminate H].
    pose proof (skip_ws_length r1) as Hw1.
    apply bind_raise_inv in H as [H|([x r2] & Hx & H)].
    + apply (Hf (skip_ws r1)); [lia | exact H].
    + apply Hc in Hx. cbn [fst snd] in H.
      pose proof (skip_ws_length r2) as Hw2.
      destruct (skip_ws r2) as [|c1 r3]; [discriminate H|]. cbn [length] in Hw2.
      destruct (c1 =? 125); [discriminate H|].
      destruct (c1 =? 44); [|discriminate H].
      pose proof (skip_ws_length r3) as Hw3.
      destruct (skip_ws r3) as [|c2 r4]; [discriminate H|]. cbn [length] in Hw3.
      destruct (c2 =? 34); [|discriminate H].
      apply bind_raise_inv in H as [H|(q & _ & H)]; [|discriminate H].
      apply (IH r4); [lia | lia | exact H].
Qed.

Lemma JSONArray_consumes (scan : pystr -> result (json * pystr)) (n : nat) :
  consumes scan -> consumes (JSONArray scan n).
Proof.
  intros Hscan s v r H. unfold JSONArray in H.
  pose proof (skip_ws_length s) as Hw.
  destruct (skip_ws s) as [|c r0]; [discriminate H|]. cbn [length] in Hw.
  destruct (c =? 93).
  - injection H as _ <-. lia.
  - apply bind_ok_inv in H as ([vs r1] & Hq & H).
    apply (array_items_consumes scan n Hscan) in Hq.
    injection H as _ <-. cbn [snd length] in *. lia.
Qed.

Lemma JSONObject_consumes (scan : pystr -> result (json * pystr)) (n : nat) :
  consumes scan -> consumes (JSONObject scan n).
Proof.
  intros Hscan s v r H. unfold JSONObject in H.
  pose proof (skip_ws_length s) as Hw.
  destruct (skip_ws s) as [|c r0]; [discriminate H|]. cbn [length] in Hw.
  destruct (c =? 125).
  - injection H as _ <-. lia.
  - destruct (c =? 34); [|discriminate H].
    apply bind_ok_inv in H as ([ps r1] & Hq & H).
    apply (object_pairs_consumes scan n Hscan) in Hq.
    injection H as _ <-. cbn [snd] in *. lia.
Qed.

Lemma scan_once_consumes (fuel : nat) : consumes (scan_once fuel).
Proof.
  induction fuel as [|fuel IH]; intros s v r H; [discriminate H|].
  destruct s as [|c s]; [discriminate H|]. cbn [scan_once] in H.
  destruct (c =? 34).
  { apply bind_ok_inv in H as ([x r1] & Hx & H). apply scanstring_consumes in Hx.
    injection H as _ <-. cbn [snd length]. lia. }
  destruct (c =? 123).
  { apply (JSONObject_consumes _ _ IH) in H. cbn [length]. lia. }
  destruct (c =? 91).
  { apply (JSONArray_consumes _ _ IH) in H. cbn [length]. lia. }
  destruct (strip_prefix [110; 117; 108; 108] (c :: s)) as [r'|] eqn:E1.
  { apply strip_prefix_length in E1. injection H as _ <-. rewrite E1. cbn. lia. }
  destruct (strip_prefix [116; 114; 117; 101] (c :: s)) as [r'|] eqn:E2.
  { apply strip_prefix_length in E2. injection H as _ <-. rewrite E2. cbn. lia. }
  destruct (strip_prefix [102; 97; 108; 115; 101] (c :: s)) as [r'|] eqn:E3.
  { apply strip_prefix_length in E3. injection H as _ <-. rewrite E3. cbn. lia. }
  destruct (match_number (c :: s)) as [[[[neg u] [|]] r']|] eqn:E4.
  - discriminate H.
  - apply match_number_length in E4. injection H as _ <-. exact E4.
  - destruct (_ || _); discriminate H.
Qed.

Lemma scan_once_fueled (fuel : nat) : fueled (scan_once fuel) fuel.
Proof.
  induction fuel as [|fuel IH]; intros s Hs H; [lia|].
  destruct s as [|c s]; [discriminate H|]. cbn [scan_once length] in *.
  destruct (c =? 34).
  { apply bind_raise_inv in H as [H|(q & _ & H)]; [|discriminate H].
    exact (scanstring_no_fuel s H). }
  destruct (c =? 123).
  { unfold JSONObject in H. pose proof (skip_ws_length s) as Hw.
    destruct (skip_ws s) as [|c0 r0]; [discriminate H|]. cbn [length] in Hw.
    destruct (c0 =? 125); [discriminate H|].
    destruct (c0 =? 34); [|discriminate H].
    apply bind_raise_inv in H as [H|(q & _ & H)]; [|discriminate H].
    apply (object_pairs_fueled _ fuel fuel (scan_once_consumes fuel) IH r0);
      [lia | lia | exact H]. }
  destruct (c =? 91).
  { unfold JSONArray in H. pose proof (skip_ws_length s) as Hw.
    destruct (skip_ws s) as [|c0 r0]; [discriminate H|]. cbn [length] in Hw.
    destruct (c0 =? 93); [discriminate H|].
    apply bind_raise_inv in H as [H|(q & _ & H)]; [|discriminate H].
    apply (array_items_fueled _ fuel fuel (scan_once_consumes fuel) IH (c0 :: r0));
      [cbn [length]; lia | cbn [length]; lia | exact H]. }
  destruct (strip_prefix [110; 117; 108; 108] (c :: s)); [discriminate H|].
  destruct (strip_prefix [116; 114; 117; 101] (c :: s)); [discriminate H|].
  destruct (strip_prefix [102; 97; 108; 115; 101] (c :: s)); [discriminate H|].
  destruct (match_number (c :: s)) as [[[[neg u] [|]] r']|]; try discriminate H.
  destruct (_ || _); discriminate H.
Qed.

(** [json_loads] never stops for lack of fuel: its outcome is a value, a
    Python exception or, on a float literal, the marker of the model. *)
Lemma json_loads_fuel (s : pystr) : json_loads s <> Raise OutOfFuel.
Proof.
  unfold json_loads. destruct (starts_with [65279] s); [discriminate|].
  unfold decode. intros H.
  apply bind_raise_inv in H as [H|([v r] & _ & H)].
  - apply (scan_once_fueled (S (length s)) (skip_ws s)); [|exact H].
    pose proof (skip_ws_length s). lia.
  - cbn [fst snd] in H. destruct (skip_ws r); discriminate H.
Qed.

(** ** The native-messaging codec *)

Import NativeHost.

Lemma split_bytes_app (p r : list byte) : split_bytes (len p) (p ++ r) = (p, r).
Proof.
  induction p as [|b p IH].
  - destruct r; reflexivity.
  - cbn [List.app split_bytes]. rewrite len_cons.
    replace (1 + len p =? 0) with false by lia.
    replace (N.pred (1 + len p)) with (len p) by lia.
    now rewrite IH.
Qed.

Lemma split_bytes_all (n : N) (s : list byte) :
  len s <= n -> split_bytes n s = (s, []).
Proof.
  revert n. induction s as [|b s IH]; intros n Hn; [reflexivity|].
  rewrite len_cons in Hn. cbn [split_bytes].
  replace (n =? 0) with false by lia.
  rewrite IH by lia. reflexivity.
Qed.

Lemma split_bytes_length (n : N) (s : list byte) :
  len (fst (split_bytes n s)) = N.min n (len s)
  /\ fst (split_bytes n s) ++ snd (split_bytes n s) = s.
Proof.
  revert n. induction s as [|b s IH]; intros n.
  - cbn. unfold len. cbn. split; [lia | reflexivity].
  - cbn [split_bytes]. destruct (N.eqb_spec n 0) as [->|Hn].
    + cbn. split; reflexivity.
    + cbn [fst snd]. rewrite !len_cons. destruct (IH (N.pred n)) as [H1 H2].
      rewrite H1. split; [lia|]. cbn [List.app]. now rewrite H2.
Qed.

(** A stream shorter than the length prefix: end of stream. *)
Lemma read_native_message_short (w : io) :
  len (stdin w) < 4 ->
  read_native_message w = (Ok JNull, {| stdin := []; stdout := stdout w |}).
Proof.
  intros Hs. unfold read_native_message, bindIO, stdin_read.
  rewrite split_bytes_all by lia. cbn [fst snd].
  apply N.ltb_lt in Hs. rewrite Hs. reflexivity.
Qed.

(** A stream with a whole length prefix: the prefix is its first four bytes,
    the payload is read from what follows them, and is then decoded. *)
Lemma read_native_message_prefix (b0 b1 b2 b3 : byte) (rest out : list byte) (L : N) :
  struct_unpack_I [b0; b1; b2; b3] = Ok L ->
  read_native_message {| stdin := b0 :: b1 :: b2 :: b3 :: rest; stdout := out |}
  = (text <- decode_utf8 (fst (split_bytes L rest)) ;; json_loads text,
     {| stdin := snd (split_bytes L rest); stdout := out |}).
Proof.
  intros HL. unfold read_native_message, bindIO, stdin_read, lift.
  cbn [stdin stdout].
  change (split_bytes 4 (b0 :: b1 :: b2 :: b3 :: rest))
    with (b0 :: b1 :: b2 :: b3 :: fst (split_bytes 0 rest), snd (split_bytes 0 rest)).
  assert (H0 : split_bytes 0 rest = ([], rest)) by (destruct rest; reflexivity).
  rewrite H0. cbn [fst snd]. change (len [b0; b1; b2; b3] <? 4) with false.
  cbv iota. rewrite HL. cbn [stdin stdout].
  destruct (decode_utf8 (fst (split_bytes L rest))) as [text|e]; reflexivity.
Qed.


Lemma write_native_message_overflow (v : json) (w : io) :
  4294967296 <= len (json_dumps v) ->
  write_native_message v w = (Raise StructError, w).
Proof.
  intros Hlen.
  unfold write_native_message, bindIO, lift.
  fold (json_bytes v). rewrite json_bytes_ok, len_map.
  now rewrite struct_pack_overflow.
Qed.

Lemma read_frame (b0 b1 b2 b3 : byte) (payload rest out : list byte) :
  struct_unpack_I [b0; b1; b2; b3] = Ok (len payload) ->
  read_native_message
    {| stdin := b0 :: b1 :: b2 :: b3 :: payload ++ rest; stdout := out |}
  = (text <- decode_utf8 payload ;; json_loads text,
     {| stdin := rest; stdout := out |}).
Proof.
  intros HL. rewrite (read_native_message_prefix _ _ _ _ _ _ _ HL).
  now rewrite split_bytes_app.
Qed.


(** ** The relay *)



Lemma run_no_deliver (a : CommandServer.action) (st : CommandServer.state) :
  CommandServer.is_deliver a = false ->
  CommandServer.result_event st = false ->
  CommandServer.result_event (CommandServer.run a st) = false
  /\ (CommandServer.pending_result (CommandServer.run a st) = CommandServer.pending_result st
      \/ CommandServer.pending_result (CommandServer.run a st) = JNull).
Proof.
  intros Ha Hev. destruct a as [d| | |d]; cbn in *; try discriminate Ha; auto.
  unfold CommandServer.poll. destruct (truthy (CommandServer.pending_command st)); cbn; auto.
Qed.

Lemma run_quiet (a : CommandServer.action) (st : CommandServer.state) :
  CommandServer.is_deliver a = false -> CommandServer.is_collect a = false ->
  CommandServer.result_event st = false ->
  CommandServer.result_event (CommandServer.run a st) = false
  /\ CommandServer.pending_result (CommandServer.run a st) = CommandServer.pending_result st.
Proof.
  intros Ha Hc Hev. destruct a as [d| | |d]; cbn in *;
    try discriminate Ha; try discriminate Hc; auto.
  unfold CommandServer.poll. destruct (truthy (CommandServer.pending_command st)); cbn; auto.
Qed.

(** With no delivery the flag stays clear and the wait uses up its time. *)
Lemma wait_no_deliver (env : list (N * CommandServer.action)) :
  CommandServer.no_deliver (map snd env) = true ->
  forall t st,
    CommandServer.result_event st = false ->
    snd (CommandServer.wait t env st) = 0
    /\ (CommandServer.pending_result st = JNull ->
        CommandServer.pending_result (fst (CommandServer.wait t env st)) = JNull).
Proof.
  induction env as [|[d a] env IH]; intros Hq t st Hev.
  - cbn. rewrite Hev. cbn. auto.
  - cbn [map snd CommandServer.no_deliver forallb] in Hq. apply andb_prop in Hq as [Ha Hq].
    apply negb_true_iff in Ha.
    cbn [CommandServer.wait]. rewrite Hev. destruct (d <? t); [|cbn; auto].
    destruct (run_no_deliver a st Ha Hev) as [Hev' Hres].
    destruct (IH Hq (t - d) (CommandServer.run a st) Hev') as [H1 H2].
    split; [exact H1|]. intros Hnull. apply H2.
    destruct Hres as [-> | ->]; auto.
Qed.

Lemma wait_quiet (env : list (N * CommandServer.action)) :
  CommandServer.no_deliver_no_collect (map snd env) = true ->
  forall t st,
    CommandServer.result_event st = false ->
    snd (CommandServer.wait t env st) = 0
    /\ CommandServer.pending_result (fst (CommandServer.wait t env st)) = CommandServer.pending_result st.
Proof.
  induction env as [|[d a] env IH]; intros Hq t st Hev.
  - cbn. rewrite Hev. cbn. auto.
  - cbn [map snd CommandServer.no_deliver_no_collect forallb] in Hq.
    apply andb_prop in Hq as [Ha Hq]. apply andb_prop in Ha as [Ha Hc].
    apply negb_true_iff in Ha, Hc.
    cbn [CommandServer.wait]. rewrite Hev. destruct (d <? t); [|cbn; auto].
    destruct (run_quiet a st Ha Hc Hev) as [Hev' Hres].
    destruct (IH Hq (t - d) (CommandServer.run a st) Hev') as [H1 H2].
    split; [exact H1|]. now rewrite H2.
Qed.

Lemma run_all_no_deliver (l : list CommandServer.action) :
  CommandServer.no_deliver l = true ->
  forall st, CommandServer.pending_result st = JNull ->
             CommandServer.pending_result (CommandServer.run_all l st) = JNull.
Proof.
  unfold CommandServer.run_all.
  induction l as [|a l IH]; intros Hq st Hnull; [exact Hnull|].
  cbn [CommandServer.no_deliver forallb] in Hq. apply andb_prop in Hq as [Ha Hq].
  apply negb_true_iff in Ha. cbn [fold_left]. apply (IH Hq).
  destruct a as [d| | |d]; cbn in *; try discriminate Ha; auto.
  unfold CommandServer.poll. destruct (truthy (CommandServer.pending_command st)); cbn; auto.
Qed.

Lemma run_all_quiet (l : list CommandServer.action) :
  CommandServer.no_deliver_no_collect l = true ->
  forall st, CommandServer.pending_result (CommandServer.run_all l st) = CommandServer.pending_result st.
Proof.
  unfold CommandServer.run_all.
  induction l as [|a l IH]; intros Hq st; [reflexivity|].
  cbn [CommandServer.no_deliver_no_collect forallb] in Hq.
  apply andb_prop in Hq as [Ha Hq]. apply andb_prop in Ha as [Ha Hc].
  apply negb_true_iff in Ha, Hc. cbn [fold_left]. rewrite (IH Hq).
  destruct a as [d| | |d]; cbn in *; try discriminate Ha; try discriminate Hc; auto.
  unfold CommandServer.poll. destruct (truthy (CommandServer.pending_command st)); cbn; auto.
Qed.

Lemma timeout_text_ok : json_dumps CommandServer.timeout_result = CommandServer.timeout_text.
Proof. reflexivity. Qed.

Lemma request_data_loads (text : pystr) (data : json) :
  json_loads text = Ok data -> CommandServer.request_data text = Ok data.
Proof. destruct text; [discriminate | auto]. Qed.

(** The reply of [POST /command], given the parsed body, what the other
    threads do, and the state at the first locked block. *)
Lemma do_POST_command (body : list byte) (text : pystr) (data : json)
  (env : list (N * CommandServer.action)) (late : list CommandServer.action) (st : CommandServer.state) :
  decode_utf8 body = Ok text -> CommandServer.request_data text = Ok data ->
  let w := CommandServer.wait 30 env (CommandServer.submit data st) in
  let c := CommandServer.collect (CommandServer.run_all late (fst w)) in
  CommandServer.do_POST "/command" body env late st
  = {| CommandServer.reply :=
         Ok {| status := 200;
               headers := content_type_json :: cors_headers;
               body := map byte_of_N (json_dumps (py_or (fst c) CommandServer.timeout_result)) |};
       CommandServer.final := snd c;
       CommandServer.elapsed := 30 - snd w |}.
Proof.
  intros Hb Hd. unfold CommandServer.do_POST. rewrite Hb, Hd.
  change (String.eqb "/command" "/command") with true. cbv iota zeta.
  now rewrite json_bytes_ok.
Qed.

(** The scenario of the specification in which the peer answers: it polls
    after 3 time units, receives the command, and posts its result 4 time
    units later; the blocked request answers with that result after 7 time
    units and leaves both slots empty. *)
Example post_command_fulfilled :
  let ok := JObj [(txt "ok", JBool true)] in
  let o := CommandServer.do_POST "/command" screenshot_body
             [(3, CommandServer.Poll); (4, CommandServer.Deliver ok)] []
             CommandServer.initial in
  CommandServer.reply o
  = Ok {| status := 200;
          headers := content_type_json :: cors_headers;
          body := map byte_of_N (txt "{" ++ quoted "ok" ++ txt ": true}") |}
  /\ CommandServer.elapsed o = 7
  /\ CommandServer.pending_command (CommandServer.final o) = JNull
  /\ CommandServer.pending_result (CommandServer.final o) = JNull.
Proof. repeat split. Qed.

(** C1. For every POST /command whose body is valid JSON, when no POST
    /result is run during the wait or before the second locked block and the
    stored result is absent, the handler is blocked for the whole 30 time
    units and then answers with status 200 and the JSON text of the object
    whose only key, error, has the value timeout. *)
Theorem post_command_timeout (request_body : list byte) (text : pystr) (data : json)
  (env : list (N * CommandServer.action)) (late : list CommandServer.action)
  (st : CommandServer.state) :
  decode_utf8 request_body = Ok text ->
  json_loads text = Ok data ->
  CommandServer.pending_result st = JNull ->
  CommandServer.no_deliver (map snd env) = true ->
  CommandServer.no_deliver late = true ->
  CommandServer.reply (CommandServer.do_POST "/command" request_body env late st)
  = Ok {| status := 200;
          headers := content_type_json :: cors_headers;
          body := map byte_of_N CommandServer.timeout_text |}
  /\ CommandServer.elapsed (CommandServer.do_POST "/command" request_body env late st)
     = 30.
Proof.
  intros Hb Hd Hnull Henv Hlate.
  rewrite (do_POST_command _ _ _ env late st Hb (request_data_loads _ _ Hd)).
  cbv zeta. cbn [CommandServer.reply CommandServer.elapsed CommandServer.collect fst snd].
  destruct (wait_no_deliver env Henv 30 (CommandServer.submit data st) eq_refl)
    as [Hw Hres].
  rewrite Hw, (run_all_no_deliver late Hlate _ (Hres Hnull)).
  split; reflexivity.
Qed.

Lemma post_command_timeout_witness :
  CommandServer.reply
    (CommandServer.do_POST "/command" screenshot_body [] [] CommandServer.initial)
  = Ok {| status := 200;
          headers := content_type_json :: cors_headers;
          body := map byte_of_N CommandServer.timeout_text |}
  /\ CommandServer.elapsed
       (CommandServer.do_POST "/command" screenshot_body [] [] CommandServer.initial)
     = 30.
Proof.
  apply (post_command_timeout screenshot_body
           (txt "{" ++ quoted "tool" ++ txt ":" ++ quoted "screenshot"
            ++ txt "," ++ quoted "args" ++ txt ":{}}")
           screenshot_command);
    reflexivity.
Defined.

(** C2. In every state whose pending command passes the test of the poll
    handler, GET /command answers 200 with the JSON text of that command and
    clears the slot, and the GET /command that follows answers 204 with an
    empty body and changes nothing. *)
Theorem poll_delivers_once (st : CommandServer.state) :
  truthy (CommandServer.pending_command st) = true ->
  let st' := {| CommandServer.pending_command := JNull;
                CommandServer.pending_result := CommandServer.pending_result st;
                CommandServer.result_event := CommandServer.result_event st |} in
  CommandServer.do_GET "/command" st
  = (Ok {| status := 200;
           headers := content_type_json :: cors_headers;
           body := map byte_of_N (json_dumps (CommandServer.pending_command st)) |},
     st')
  /\ CommandServer.do_GET "/command" st'
     = (Ok {| status := 204; headers := cors_headers; body := [] |}, st').
Proof.
  intros Hcmd st'. unfold CommandServer.do_GET.
  change (String.eqb "/command" "/command") with true. cbv iota.
  unfold CommandServer.poll. rewrite Hcmd, json_bytes_ok. split; reflexivity.
Qed.

Lemma poll_delivers_once_witness :
  CommandServer.do_GET "/command"
    (CommandServer.submit screenshot_command CommandServer.initial)
  = (Ok {| status := 200;
           headers := content_type_json :: cors_headers;
           body := map byte_of_N (json_dumps screenshot_command) |},
     CommandServer.initial)
  /\ CommandServer.do_GET "/command" CommandServer.initial
     = (Ok {| status := 204; headers := cors_headers; body := [] |},
        CommandServer.initial).
Proof.
  apply (poll_delivers_once
           (CommandServer.submit screenshot_command CommandServer.initial)).
  reflexivity.
Defined.



(** ** Statements on the codec *)

Lemma escape_repeat_a (n : nat) :
  flat_map escape_char (repeat 97 n) = repeat 97 n.
Proof. induction n as [|n IH]; [reflexivity|]. cbn [repeat flat_map]. now rewrite IH. Qed.

Lemma len_dumps_repeat_a (n : nat) :
  len (json_dumps (JStr (repeat 97 n))) = N.of_nat n + 2.
Proof.
  cbn [json_dumps]. unfold encode_basestring_ascii.
  rewrite escape_repeat_a, len_cons, len_app. unfold len.
  rewrite repeat_length. cbn [length]. lia.
Qed.

Lemma representable_repeat_a (n : nat) : representable (JStr (repeat 97 n)) = true.
Proof.
  cbn [representable]. unfold text_ok. apply forallb_forall.
  intros c Hc. apply repeat_spec in Hc. now subst.
Qed.

Lemma decode_utf8_raises (bs : list byte) (e : exn) :
  decode_utf8 bs = Raise e -> e = UnicodeDecodeError.
Proof.
  remember (length bs) as n eqn:Hn. revert bs Hn e.
  induction n as [n IH] using lt_wf_ind. intros bs Hn e H.
  destruct bs as [|b0 r]; [discriminate H|]. cbn [decode_utf8] in H.
  cbv zeta in H.
  split_match H; try discriminate H; try (injection H as <-; reflexivity);
    apply bind_raise_inv in H as [H|(a & _ & H)]; try discriminate H;
    match type of H with
    | decode_utf8 ?t = _ =>
        apply (IH (length t) ltac:(subst; cbn [length]; lia) t eq_refl e H)
    end.
Qed.




(** C5. [read_native_message] first reads four bytes. When the stream ends
    before four bytes are available it returns [None], consuming what there
    was, and raises nothing. When four bytes are available they are the
    length prefix: the length is unpacked from exactly those four bytes and
    the payload is read from the byte that follows them. *)
Theorem read_length_prefix (w : NativeHost.io) (b0 b1 b2 b3 : byte)
  (rest out : list byte) :
  (len (NativeHost.stdin w) < 4 ->
   NativeHost.read_native_message w
   = (Ok JNull, {| NativeHost.stdin := []; NativeHost.stdout := NativeHost.stdout w |}))
  /\ (exists L,
        struct_unpack_I [b0; b1; b2; b3] = Ok L
        /\ NativeHost.read_native_message
             {| NativeHost.stdin := b0 :: b1 :: b2 :: b3 :: rest;
                NativeHost.stdout := out |}
           = (text <- decode_utf8 (fst (NativeHost.split_bytes L rest)) ;;
              json_loads text,
              {| NativeHost.stdin := snd (NativeHost.split_bytes L rest);
                 NativeHost.stdout := out |})).
Proof.
  split.
  - apply read_native_message_short.
  - eexists. split; [reflexivity|]. now apply read_native_message_prefix.
Qed.

Lemma read_length_prefix_witness :
  NativeHost.read_native_message
    {| NativeHost.stdin := [x02; x00; x00]; NativeHost.stdout := [] |}
  = (Ok JNull, {| NativeHost.stdin := []; NativeHost.stdout := [] |}).
Proof.
  apply (proj1 (read_length_prefix
                  {| NativeHost.stdin := [x02; x00; x00]; NativeHost.stdout := [] |}
                  x00 x00 x00 x00 [] [])).
  reflexivity.
Defined.

(** C6, as amended. For every stream that holds a whole length prefix
    declaring [L] and then ends after fewer than [L] payload bytes,
    [read_native_message] does not block: it reads the stream to its end and
    decodes the bytes that were delivered. Its outcome is that of
    [bytes.decode] and [json.loads] on those bytes: the value they denote
    when they are a whole JSON text, the decoding error otherwise. *)
Theorem read_truncated_payload (b0 b1 b2 b3 : byte) (payload out : list byte) (L : N) :
  struct_unpack_I [b0; b1; b2; b3] = Ok L ->
  len payload < L ->
  NativeHost.read_native_message
    {| NativeHost.stdin := b0 :: b1 :: b2 :: b3 :: payload; NativeHost.stdout := out |}
  = (text <- decode_utf8 payload ;; json_loads text,
     {| NativeHost.stdin := []; NativeHost.stdout := out |})
  /\ (text <- decode_utf8 payload ;; json_loads text) <> Raise OutOfFuel.
Proof.
  intros HL Hshort. split.
  - rewrite (read_native_message_prefix _ _ _ _ _ _ _ HL).
    now rewrite split_bytes_all by lia.
  - intros H. apply bind_raise_inv in H as [H|(text & _ & H)].
    + apply decode_utf8_raises in H. discriminate H.
    + exact (json_loads_fuel text H).
Qed.

Lemma read_truncated_payload_witness :
  NativeHost.read_native_message
    {| NativeHost.stdin := [x08; x00; x00; x00; x7b; x22; x61; x22; x3a];
       NativeHost.stdout := [] |}
  = (Raise (JSONDecodeError "Expecting value"),
     {| NativeHost.stdin := []; NativeHost.stdout := [] |}).
Proof.
  apply (proj1 (read_truncated_payload x08 x00 x00 x00 [x7b; x22; x61; x22; x3a] [] 8
                  eq_refl eq_refl)).
Defined.

(** C6, as stated, fails: the prefix declares three bytes, the stream ends
    after the two bytes of the text 12, and [read_native_message] returns
    the integer 12. *)
Lemma read_truncated_payload_returns :
  struct_unpack_I [x03; x00; x00; x00] = Ok 3
  /\ len [x31; x32] < 3
  /\ NativeHost.read_native_message
       {| NativeHost.stdin := [x03; x00; x00; x00; x31; x32]; NativeHost.stdout := [] |}
     = (Ok (JInt 12), {| NativeHost.stdin := []; NativeHost.stdout := [] |}).
Proof. repeat split. Qed.

(** C7, as amended. [read_native_message] checks the declared length
    against no bound: whatever length the four bytes of the prefix declare,
    it reads that many bytes and decodes them, so that every frame whose
    payload is a JSON text is decoded. The only limit is the range of the
    prefix, 2^32 - 1. *)
Theorem read_any_declared_length (b0 b1 b2 b3 : byte) (payload rest out : list byte)
  (text : pystr) (v : json) :
  struct_unpack_I [b0; b1; b2; b3] = Ok (len payload) ->
  decode_utf8 payload = Ok text ->
  json_loads text = Ok v ->
  len payload < 4294967296
  /\ NativeHost.read_native_message
       {| NativeHost.stdin := b0 :: b1 :: b2 :: b3 :: payload ++ rest;
          NativeHost.stdout := out |}
     = (Ok v, {| NativeHost.stdin := rest; NativeHost.stdout := out |}).
Proof.
  intros HL Hd Hv. split; [exact (struct_unpack_bound _ _ _ _ _ HL)|].
  rewrite (read_frame _ _ _ _ _ _ _ HL), Hd. cbn [bind].
  now rewrite Hv.
Qed.

Lemma read_any_declared_length_witness :
  len [x7b; x7d] < 4294967296
  /\ NativeHost.read_native_message
       {| NativeHost.stdin := [x02; x00; x00; x00; x7b; x7d] ++ [xff];
          NativeHost.stdout := [] |}
     = (Ok (JObj []), {| NativeHost.stdin := [xff]; NativeHost.stdout := [] |}).
Proof.
  apply (read_any_declared_length x02 x00 x00 x00 [x7b; x7d] [xff] []
           [123; 125] (JObj []));
    reflexivity.
Defined.

(** C7, as stated, fails: below the range of the prefix there is no bound
    above which every frame is refused. Whatever the bound, the frame of a
    long enough string of the letter a declares more and is decoded. *)
Lemma no_size_bound :
  ~ exists bound,
      bound < 4294967295
      /\ forall w L, frame w L -> bound < L ->
                     exists e, fst (NativeHost.read_native_message w) = Raise e.
Proof.
  intros (bound & Hb & Hall).
  set (L := N.max 2 (bound + 1)).
  set (v := JStr (repeat 97 (N.to_nat (L - 2)))).
  assert (Hlen : len (json_dumps v) = L).
  { unfold v. rewrite len_dumps_repeat_a, N2Nat.id. unfold L. lia. }
  assert (HL : L < 4294967296) by (unfold L; lia).
  destruct (struct_unpack_pack L HL) as (bs & _ & Hl & Hu).
  destruct bs as [|b0 [|b1 [|b2 [|b3 [|b4 bs]]]]];
    try (unfold len in Hl; cbn [length] in Hl; lia).
  set (payload := map byte_of_N (json_dumps v)).
  assert (Hpl : len payload = L) by (unfold payload; now rewrite len_map).
  destruct (Hall {| NativeHost.stdin := b0 :: b1 :: b2 :: b3 :: payload ++ [];
                    NativeHost.stdout := [] |} L) as [e He].
  - exists b0, b1, b2, b3, payload. cbn [NativeHost.stdin].
    rewrite app_nil_r. auto.
  - unfold L. lia.
  - rewrite <- Hpl in Hu. rewrite (read_frame _ _ _ _ _ _ _ Hu) in He.
    unfold payload in He. rewrite decode_utf8_ascii in He by apply json_dumps_ascii.
    cbn [bind fst] in He.
    rewrite json_loads_dumps in He by apply representable_repeat_a.
    discriminate He.
Qed.

(** ** Statements on malformed bodies and on falsy values *)





(** C9, as amended. A result stored by POST /result while no POST /command
    is waiting is kept. When a POST /command follows, and until it has
    answered no other thread delivers or collects a result, it is blocked
    for the whole 30 time units, then clears the stored result and answers
    200 with the stored result when that result is truthy, and with the
    timeout object when it is falsy. *)
Theorem stale_result_returned (result_body request_body : list byte)
  (result_text text : pystr) (R data : json)
  (env : list (N * CommandServer.action)) (late : list CommandServer.action)
  (st : CommandServer.state) :
  decode_utf8 result_body = Ok result_text ->
  CommandServer.request_data result_text = Ok R ->
  decode_utf8 request_body = Ok text ->
  CommandServer.request_data text = Ok data ->
  CommandServer.no_deliver_no_collect (map snd env) = true ->
  CommandServer.no_deliver_no_collect late = true ->
  let st1 := CommandServer.final
               (CommandServer.do_POST "/result" result_body [] [] st) in
  let o := CommandServer.do_POST "/command" request_body env late st1 in
  CommandServer.pending_result st1 = R
  /\ CommandServer.elapsed o = 30
  /\ CommandServer.reply o
     = Ok {| status := 200;
             headers := content_type_json :: cors_headers;
             body := map byte_of_N
                       (json_dumps (if truthy R then R
                                    else CommandServer.timeout_result)) |}
  /\ CommandServer.pending_result (CommandServer.final o) = JNull.
Proof.
  intros Hrb Hrd Hb Hd Henv Hlate st1 o.
  assert (Hst1 : st1 = CommandServer.deliver R st).
  { unfold st1, CommandServer.do_POST. rewrite Hrb, Hrd. reflexivity. }
  split; [rewrite Hst1; reflexivity|].
  unfold o. rewrite (do_POST_command _ _ _ env late st1 Hb Hd). cbv zeta.
  cbn [CommandServer.reply CommandServer.elapsed CommandServer.final
       CommandServer.collect fst snd CommandServer.pending_result].
  destruct (wait_quiet env Henv 30 (CommandServer.submit data st1) eq_refl)
    as [Hw Hres].
  rewrite Hw, (run_all_quiet late Hlate), Hres.
  cbn [CommandServer.submit CommandServer.pending_result].
  rewrite Hst1. cbn [CommandServer.deliver CommandServer.pending_result].
  unfold py_or. repeat split.
Qed.

Lemma stale_result_returned_witness :
  let st1 := CommandServer.final
               (CommandServer.do_POST "/result"
                  (map byte_of_N (txt "[7]")) [] [] CommandServer.initial) in
  let o := CommandServer.do_POST "/command" screenshot_body
             [(5, CommandServer.Poll)] [] st1 in
  CommandServer.pending_result st1 = JArr [JInt 7]
  /\ CommandServer.elapsed o = 30
  /\ CommandServer.reply o
     = Ok {| status := 200;
             headers := content_type_json :: cors_headers;
             body := map byte_of_N
                       (json_dumps (if truthy (JArr [JInt 7]) then JArr [JInt 7]
                                    else CommandServer.timeout_result)) |}
  /\ CommandServer.pending_result (CommandServer.final o) = JNull.
Proof.
  apply (stale_result_returned (map byte_of_N (txt "[7]")) screenshot_body
           (txt "[7]")
           (txt "{" ++ quoted "tool" ++ txt ":" ++ quoted "screenshot"
            ++ txt "," ++ quoted "args" ++ txt ":{}}")
           (JArr [JInt 7]) screenshot_command);
    reflexivity.
Defined.

(** C9, as stated, fails: POST /result with the body of an empty object
    stores the empty object, and the POST /command that follows answers
    with the timeout object, not with the stored result. *)
Lemma stale_falsy_result_times_out :
  let st1 := CommandServer.final
               (CommandServer.do_POST "/result"
                  (map byte_of_N (txt "{}")) [] [] CommandServer.initial) in
  let o := CommandServer.do_POST "/command" screenshot_body [] [] st1 in
  CommandServer.pending_result st1 = JObj []
  /\ CommandServer.reply o
     = Ok {| status := 200;
             headers := content_type_json :: cors_headers;
             body := map byte_of_N CommandServer.timeout_text |}
  /\ map byte_of_N CommandServer.timeout_text
     <> map byte_of_N (json_dumps (JObj [])).
Proof. repeat split. discriminate. Qed.

(** C10. When the body of a POST /command parses to a falsy value, the
    command it stores fails the test of the poll handler: GET /command
    answers 204 and leaves the state as it is. The caller is nevertheless
    blocked for the whole 30 time units when no result is delivered
    meanwhile. The empty object, the empty string, null, 0, false and the
    empty body are such bodies. *)
Theorem falsy_command_not_delivered (request_body : list byte) (text : pystr)
  (data : json) (env : list (N * CommandServer.action))
  (late : list CommandServer.action) (st : CommandServer.state) :
  decode_utf8 request_body = Ok text ->
  CommandServer.request_data text = Ok data ->
  truthy data = false ->
  CommandServer.no_deliver (map snd env) = true ->
  CommandServer.do_GET "/command" (CommandServer.submit data st)
  = (Ok {| status := 204; headers := cors_headers; body := [] |},
     CommandServer.submit data st)
  /\ CommandServer.elapsed (CommandServer.do_POST "/command" request_body env late st)
     = 30
  /\ Forall (fun t => exists d, CommandServer.request_data t = Ok d
                                /\ truthy d = false)
       [txt "{}"; [34; 34]; txt "null"; txt "0"; txt "false"; []].
Proof.
  intros Hb Hd Hf Henv. split; [|split].
  - unfold CommandServer.do_GET. change (String.eqb "/command" "/command") with true.
    cbv iota. unfold CommandServer.poll.
    cbn [CommandServer.submit CommandServer.pending_command]. now rewrite Hf.
  - rewrite (do_POST_command _ _ _ env late st Hb Hd). cbv zeta.
    cbn [CommandServer.elapsed].
    destruct (wait_no_deliver env Henv 30 (CommandServer.submit data st) eq_refl)
      as [Hw _].
    now rewrite Hw.
  - repeat constructor; eexists; split; reflexivity.
Qed.

Lemma falsy_command_not_delivered_witness :
  CommandServer.do_GET "/command" (CommandServer.submit (JObj []) CommandServer.initial)
  = (Ok {| status := 204; headers := cors_headers; body := [] |},
     CommandServer.submit (JObj []) CommandServer.initial)
  /\ CommandServer.elapsed
       (CommandServer.do_POST "/command" (map byte_of_N (txt "{}"))
          [(1, CommandServer.Poll); (1, CommandServer.Poll)] []
          CommandServer.initial)
     = 30
  /\ Forall (fun t => exists d, CommandServer.request_data t = Ok d
                                /\ truthy d = false)
       [txt "{}"; [34; 34]; txt "null"; txt "0"; txt "false"; []].
Proof.
  apply (falsy_command_not_delivered (map byte_of_N (txt "{}")) (txt "{}") (JObj []));
    reflexivity.
Defined.

(** * Further properties of the relay *)

Lemma run_all_app (l1 l2 : list CommandServer.action) (st : CommandServer.state) :
  CommandServer.run_all (l1 ++ l2) st
  = CommandServer.run_all l2 (CommandServer.run_all l1 st).
Proof. unfold CommandServer.run_all. apply fold_left_app. Qed.

Lemma run_all_event (l : list CommandServer.action) :
  CommandServer.no_deliver l = true ->
  forall st, CommandServer.result_event st = false ->
             CommandServer.result_event (CommandServer.run_all l st) = false.
Proof.
  unfold CommandServer.run_all.
  induction l as [|a l IH]; intros Hq st Hev; [exact Hev|].
  cbn [CommandServer.no_deliver forallb] in Hq. apply andb_prop in Hq as [Ha Hq].
  apply negb_true_iff in Ha. cbn [fold_left]. apply (IH Hq).
  now apply run_no_deliver.
Qed.

Lemma wait_woken (t : N) (env : list (N * CommandServer.action))
  (st : CommandServer.state) :
  CommandServer.result_event st = true -> CommandServer.wait t env st = (st, t).
Proof. intros H. destruct env as [|[d a] env]; cbn [CommandServer.wait]; now rewrite H. Qed.

(** The wait ends at the first delivery, when it comes in time. *)
Lemma wait_until_deliver (pre : list (N * CommandServer.action)) :
  CommandServer.no_deliver (map snd pre) = true ->
  forall d R post t st,
    CommandServer.result_event st = false ->
    total_delay pre + d < t ->
    CommandServer.wait t (pre ++ (d, CommandServer.Deliver R) :: post) st
    = (CommandServer.deliver R (CommandServer.run_all (map snd pre) st),
       t - (total_delay pre + d)).
Proof.
  induction pre as [|[d0 a] pre IH]; intros Hq d R post t st Hev Ht.
  - cbn [List.app map total_delay fold_right CommandServer.run_all fold_left] in *.
    cbn [CommandServer.wait]. rewrite Hev.
    replace (d <? t) with true by lia.
    cbn [CommandServer.run]. rewrite wait_woken by reflexivity.
    f_equal; try lia.
  - cbn [map snd CommandServer.no_deliver forallb] in Hq.
    apply andb_prop in Hq as [Ha Hq]. apply negb_true_iff in Ha.
    cbn [total_delay fold_right fst] in Ht. fold (total_delay pre) in Ht.
    cbn [List.app CommandServer.wait]. rewrite Hev.
    replace (d0 <? t) with true by lia.
    destruct (run_no_deliver a st Ha Hev) as [Hev' _].
    rewrite (IH Hq d R post (t - d0) (CommandServer.run a st) Hev') by lia.
    cbn [map snd total_delay fold_right fst]. fold (total_delay pre).
    unfold CommandServer.run_all. cbn [fold_left].
    f_equal; try lia.
Qed.

(** X1. A result delivered in time is returned before the deadline. *)
Theorem post_command_fulfilled_in_time (request_body : list byte) (text : pystr)
  (data R : json) (pre post : list (N * CommandServer.action)) (d : N)
  (late : list CommandServer.action) (st : CommandServer.state) :
  decode_utf8 request_body = Ok text ->
  CommandServer.request_data text = Ok data ->
  CommandServer.no_deliver (map snd pre) = true ->
  total_delay pre + d < 30 ->
  CommandServer.no_deliver_no_collect late = true ->
  truthy R = true ->
  let o := CommandServer.do_POST "/command" request_body
             (pre ++ (d, CommandServer.Deliver R) :: post) late st in
  CommandServer.reply o
  = Ok {| status := 200;
          headers := content_type_json :: cors_headers;
          body := map byte_of_N (json_dumps R) |}
  /\ CommandServer.elapsed o = total_delay pre + d
  /\ CommandServer.pending_result (CommandServer.final o) = JNull.
Proof.
  intros Hb Hd Hpre Ht Hlate HR o. unfold o.
  rewrite (do_POST_command _ _ _ _ late st Hb Hd). cbv zeta.
  rewrite (wait_until_deliver pre Hpre d R post 30 (CommandServer.submit data st)
             eq_refl Ht).
  cbn [CommandServer.reply CommandServer.elapsed CommandServer.final
       CommandServer.collect fst snd CommandServer.pending_result].
  rewrite (run_all_quiet late Hlate).
  cbn [CommandServer.deliver CommandServer.pending_result].
  unfold py_or. rewrite HR. repeat split. lia.
Qed.

Lemma post_command_fulfilled_in_time_witness :
  let ok := JObj [(txt "ok", JBool true)] in
  let o := CommandServer.do_POST "/command" screenshot_body
             ([(3, CommandServer.Poll)] ++ (4, CommandServer.Deliver ok)
                :: [(1, CommandServer.Poll)]) []
             CommandServer.initial in
  CommandServer.reply o
  = Ok {| status := 200;
          headers := content_type_json :: cors_headers;
          body := map byte_of_N (json_dumps ok) |}
  /\ CommandServer.elapsed o = total_delay [(3, CommandServer.Poll)] + 4
  /\ CommandServer.pending_result (CommandServer.final o) = JNull.
Proof.
  apply (post_command_fulfilled_in_time screenshot_body
           (txt "{" ++ quoted "tool" ++ txt ":" ++ quoted "screenshot"
            ++ txt "," ++ quoted "args" ++ txt ":{}}")
           screenshot_command (JObj [(txt "ok", JBool true)])
           [(3, CommandServer.Poll)] [(1, CommandServer.Poll)] 4 []
           CommandServer.initial);
    reflexivity.
Defined.

(** X2. A waiter woken by a delivery whose result another caller collected
    first answers with the timeout object before the deadline. *)
Theorem post_command_woken_without_result (request_body : list byte) (text : pystr)
  (data R : json) (pre post : list (N * CommandServer.action)) (d : N)
  (late1 late2 : list CommandServer.action) (st : CommandServer.state) :
  decode_utf8 request_body = Ok text ->
  CommandServer.request_data text = Ok data ->
  CommandServer.no_deliver (map snd pre) = true ->
  total_delay pre + d < 30 ->
  CommandServer.no_deliver late2 = true ->
  let o := CommandServer.do_POST "/command" request_body
             (pre ++ (d, CommandServer.Deliver R) :: post)
             (late1 ++ CommandServer.Collect :: late2) st in
  CommandServer.reply o
  = Ok {| status := 200;
          headers := content_type_json :: cors_headers;
          body := map byte_of_N CommandServer.timeout_text |}
  /\ CommandServer.elapsed o = total_delay pre + d
  /\ CommandServer.elapsed o < 30.
Proof.
  intros Hb Hd Hpre Ht Hlate o. unfold o.
  rewrite (do_POST_command _ _ _ _ _ st Hb Hd). cbv zeta.
  rewrite (wait_until_deliver pre Hpre d R post 30 (CommandServer.submit data st)
             eq_refl Ht).
  cbn [CommandServer.reply CommandServer.elapsed CommandServer.collect fst snd].
  rewrite run_all_app.
  change (CommandServer.run_all (CommandServer.Collect :: late2) ?s)
    with (CommandServer.run_all late2 (snd (CommandServer.collect s))).
  rewrite (run_all_no_deliver late2 Hlate) by reflexivity.
  repeat split; lia.
Qed.

Lemma post_command_woken_without_result_witness :
  let o := CommandServer.do_POST "/command" screenshot_body
             ([(2, CommandServer.Submit (JInt 5))]
                ++ (4, CommandServer.Deliver (JInt 1)) :: [])
             ([] ++ CommandServer.Collect :: []) CommandServer.initial in
  CommandServer.reply o
  = Ok {| status := 200;
          headers := content_type_json :: cors_headers;
          body := map byte_of_N CommandServer.timeout_text |}
  /\ CommandServer.elapsed o = total_delay [(2, CommandServer.Submit (JInt 5))] + 4
  /\ CommandServer.elapsed o < 30.
Proof.
  apply (post_command_woken_without_result screenshot_body
           (txt "{" ++ quoted "tool" ++ txt ":" ++ quoted "screenshot"
            ++ txt "," ++ quoted "args" ++ txt ":{}}")
           screenshot_command (JInt 1)
           [(2, CommandServer.Submit (JInt 5))] [] 4 [] []
           CommandServer.initial);
    reflexivity.
Defined.

(** X3. Whatever the other threads do, a POST /command with a parsable body
    is answered with status 200 and the JSON text of a truthy value, and
    leaves no stored result behind. *)
Theorem post_command_reply_truthy (request_body : list byte) (text : pystr)
  (data : json) (env : list (N * CommandServer.action))
  (late : list CommandServer.action) (st : CommandServer.state) :
  decode_utf8 request_body = Ok text ->
  CommandServer.request_data text = Ok data ->
  let o := CommandServer.do_POST "/command" request_body env late st in
  exists v,
    truthy v = true
    /\ CommandServer.reply o
       = Ok {| status := 200;
               headers := content_type_json :: cors_headers;
               body := map byte_of_N (json_dumps v) |}
    /\ CommandServer.pending_result (CommandServer.final o) = JNull.
Proof.
  intros Hb Hd o. unfold o.
  rewrite (do_POST_command _ _ _ env late st Hb Hd). cbv zeta.
  cbn [CommandServer.reply CommandServer.final CommandServer.collect fst snd
       CommandServer.pending_result].
  eexists. split; [|split; reflexivity].
  unfold py_or.
  destruct (truthy (CommandServer.pending_result _)) eqn:E; [exact E | reflexivity].
Qed.

Lemma post_command_reply_truthy_witness :
  let o := CommandServer.do_POST "/command" screenshot_body
             [(1, CommandServer.Deliver JNull)] [] CommandServer.initial in
  exists v,
    truthy v = true
    /\ CommandServer.reply o
       = Ok {| status := 200;
               headers := content_type_json :: cors_headers;
               body := map byte_of_N (json_dumps v) |}
    /\ CommandServer.pending_result (CommandServer.final o) = JNull.
Proof.
  apply (post_command_reply_truthy screenshot_body
           (txt "{" ++ quoted "tool" ++ txt ":" ++ quoted "screenshot"
            ++ txt "," ++ quoted "args" ++ txt ":{}}")
           screenshot_command);
    reflexivity.
Defined.

(** X4. No GET request touches the stored result or the event; the only
    change a GET makes is that GET /command empties the slot of a truthy
    pending command. The status is 200, 204 or 404. *)
Theorem do_GET_keeps_result (path : string) (st : CommandServer.state) :
  let st' := snd (CommandServer.do_GET path st) in
  CommandServer.pending_result st' = CommandServer.pending_result st
  /\ CommandServer.result_event st' = CommandServer.result_event st
  /\ (st' = st
      \/ (path = "/command"%string
          /\ truthy (CommandServer.pending_command st) = true
          /\ CommandServer.pending_command st' = JNull))
  /\ exists r, fst (CommandServer.do_GET path st) = Ok r
               /\ (status r = 200 \/ status r = 204 \/ status r = 404).
Proof.
  cbv zeta. unfold CommandServer.do_GET.
  destruct (String.eqb_spec path "/command") as [->|Hp].
  - unfold CommandServer.poll. rewrite json_bytes_ok.
    destruct (truthy (CommandServer.pending_command st)) eqn:E;
      cbn [fst snd bind CommandServer.pending_result CommandServer.result_event
           CommandServer.pending_command].
    + repeat split; [right; repeat split | eexists; split; [reflexivity | now left]].
    + repeat split; [now left | eexists; split; [reflexivity | right; now left]].
  - destruct (String.eqb path "/"); rewrite ?json_bytes_ok; cbn [fst snd bind].
    + repeat split; [now left | eexists; split; [reflexivity | now left]].
    + repeat split; [now left | eexists; split; [reflexivity | right; now right]].
Qed.

(** X5. Only POST /command blocks and only POST /command writes the slot of
    the pending command: a POST to any other path returns at once and keeps
    the pending command, and a POST to a path that is not /result either
    keeps the whole state. *)
Theorem do_POST_other_paths (path : string) (request_body : list byte)
  (env : list (N * CommandServer.action)) (late : list CommandServer.action)
  (st : CommandServer.state) :
  path <> "/command"%string ->
  let o := CommandServer.do_POST path request_body env late st in
  CommandServer.elapsed o = 0
  /\ CommandServer.pending_command (CommandServer.final o)
     = CommandServer.pending_command st
  /\ (CommandServer.final o = st \/ path = "/result"%string).
Proof.
  intros Hp o. unfold o, CommandServer.do_POST.
  destruct (decode_utf8 request_body) as [text|e]; [|cbn; auto].
  destruct (CommandServer.request_data text) as [data|[]]; try (cbn; auto).
  destruct (String.eqb_spec path "/command") as [E|_]; [contradiction|].
  destruct (String.eqb_spec path "/result") as [E|_]; cbn; auto.
Qed.

Lemma do_POST_other_paths_witness :
  let o := CommandServer.do_POST "/result" screenshot_body [] []
             (CommandServer.submit (JInt 3) CommandServer.initial) in
  CommandServer.elapsed o = 0
  /\ CommandServer.pending_command (CommandServer.final o)
     = CommandServer.pending_command
         (CommandServer.submit (JInt 3) CommandServer.initial)
  /\ (CommandServer.final o = CommandServer.submit (JInt 3) CommandServer.initial
      \/ "/result"%string = "/result"%string).
Proof.
  apply (do_POST_other_paths "/result" screenshot_body [] []
           (CommandServer.submit (JInt 3) CommandServer.initial)).
  discriminate.
Defined.

(** * Further properties of the native host *)

Lemma fits_lt (v : json) : fits v = true -> len (json_dumps v) < 4294967296.
Proof. unfold fits. apply N.ltb_lt. Qed.

Lemma write_packed (v : json) (p : list byte) (w : io) :
  struct_pack_I (len (json_dumps v)) = Ok p ->
  write_native_message v w
  = (Ok tt, {| stdin := stdin w;
               stdout := (stdout w ++ p) ++ map byte_of_N (json_dumps v) |}).
Proof.
  intros Hp. unfold write_native_message, bindIO, lift, stdout_write,
    stdout_flush, ret.
  fold (json_bytes v). rewrite json_bytes_ok, len_map, Hp. reflexivity.
Qed.

Lemma write_frame (v : json) (w : io) :
  fits v = true ->
  write_native_message v w
  = (Ok tt, {| stdin := stdin w; stdout := stdout w ++ frame_bytes v |})
  /\ exists b0 b1 b2 b3,
       frame_bytes v = b0 :: b1 :: b2 :: b3 :: map byte_of_N (json_dumps v)
       /\ struct_unpack_I [b0; b1; b2; b3]
          = Ok (len (map byte_of_N (json_dumps v))).
Proof.
  intros Hf. apply fits_lt in Hf.
  destruct (struct_unpack_pack _ Hf) as (bs & Hp & Hl & Hu).
  destruct bs as [|b0 [|b1 [|b2 [|b3 [|b4 bs]]]]];
    try (unfold len in Hl; cbn [length] in Hl; lia).
  unfold frame_bytes. rewrite !(write_packed v _ _ Hp).
  cbn [snd stdout stdin List.app]. split.
  - now rewrite <- app_assoc.
  - exists b0, b1, b2, b3. split; [reflexivity|]. now rewrite len_map.
Qed.

Lemma write_too_long (v : json) (w : io) :
  fits v = false -> write_native_message v w = (Raise StructError, w).
Proof.
  intros Hf. apply write_native_message_overflow. unfold fits in Hf. lia.
Qed.

Lemma read_frame_bytes (v : json) (rest out : list byte) :
  representable v = true -> fits v = true ->
  read_native_message {| stdin := frame_bytes v ++ rest; stdout := out |}
  = (Ok v, {| stdin := rest; stdout := out |}).
Proof.
  intros Hrep Hf.
  destruct (write_frame v {| stdin := []; stdout := [] |} Hf)
    as [_ (b0 & b1 & b2 & b3 & Hfr & Hu)].
  rewrite Hfr. cbn [List.app]. rewrite (read_frame _ _ _ _ _ _ _ Hu).
  rewrite decode_utf8_ascii by apply json_dumps_ascii. cbn [bind].
  now rewrite json_loads_dumps.
Qed.

Lemma read_end (out : list byte) :
  read_native_message {| stdin := []; stdout := out |}
  = (Ok JNull, {| stdin := []; stdout := out |}).
Proof. reflexivity. Qed.

(** X6. Frames delimit themselves: after two messages are written one
    after the other, three reads return the first message, the second
    message and [None] at the end of the stream. *)
Theorem two_writes_two_reads (v1 v2 : json) (input out : list byte) :
  representable v1 = true -> fits v1 = true ->
  representable v2 = true -> fits v2 = true ->
  exists written,
    (write_native_message v1 ;;; write_native_message v2)%io
      {| stdin := input; stdout := [] |}
    = (Ok tt, {| stdin := input; stdout := written |})
    /\ (a <~ read_native_message ;; b <~ read_native_message ;;
        c <~ read_native_message ;; ret (a, b, c))%io
         {| stdin := written; stdout := out |}
       = (Ok (v1, v2, JNull), {| stdin := []; stdout := out |}).
Proof.
  intros R1 F1 R2 F2. exists (frame_bytes v1 ++ frame_bytes v2). split.
  - unfold bindIO.
    destruct (write_frame v1 {| stdin := input; stdout := [] |} F1) as [-> _].
    destruct (write_frame v2 {| stdin := input; stdout := [] ++ frame_bytes v1 |} F2)
      as [H _]. cbn [stdin stdout] in *. rewrite H. reflexivity.
  - unfold bindIO. rewrite (read_frame_bytes v1 _ out R1 F1).
    rewrite <- (app_nil_r (frame_bytes v2)).
    rewrite (read_frame_bytes v2 [] out R2 F2), read_end. reflexivity.
Qed.

Lemma two_writes_two_reads_witness :
  exists written,
    (write_native_message screenshot_command ;;; write_native_message (JInt 7))%io
      {| stdin := [x01]; stdout := [] |}
    = (Ok tt, {| stdin := [x01]; stdout := written |})
    /\ (a <~ read_native_message ;; b <~ read_native_message ;;
        c <~ read_native_message ;; ret (a, b, c))%io
         {| stdin := written; stdout := [] |}
       = (Ok (screenshot_command, JInt 7, JNull), {| stdin := []; stdout := [] |}).
Proof.
  apply (two_writes_two_reads screenshot_command (JInt 7) [x01] []); reflexivity.
Defined.

(** X7. [send_to_extension] appends the frame of the request to the output
    and returns the message of the next frame of the input, leaving what
    follows that frame unread. *)
Theorem send_to_extension_exchange (request answer : json) (rest : list byte) (w : io) :
  fits request = true ->
  representable answer = true -> fits answer = true ->
  stdin w = frame_bytes answer ++ rest ->
  send_to_extension request w
  = (Ok answer, {| stdin := rest; stdout := stdout w ++ frame_bytes request |}).
Proof.
  intros Fr Ra Fa Hin. unfold send_to_extension, bindIO.
  destruct (write_frame request w Fr) as [-> _]. rewrite Hin.
  now rewrite (read_frame_bytes answer rest _ Ra Fa).
Qed.

Lemma send_to_extension_exchange_witness :
  send_to_extension screenshot_command
    {| stdin := frame_bytes (JBool true) ++ [x00]; stdout := [x2a] |}
  = (Ok (JBool true),
     {| stdin := [x00]; stdout := [x2a] ++ frame_bytes screenshot_command |}).
Proof.
  apply (send_to_extension_exchange screenshot_command (JBool true) [x00]
           {| stdin := frame_bytes (JBool true) ++ [x00]; stdout := [x2a] |});
    reflexivity.
Defined.

Lemma echo_once_frame (v : json) (rest out : list byte) :
  echoable v = true ->
  echo_once {| stdin := frame_bytes v ++ rest; stdout := out |}
  = (Ok true, {| stdin := rest; stdout := out ++ frame_bytes v |}).
Proof.
  unfold echoable. intros H. apply andb_prop in H as [H Hn].
  apply andb_prop in H as [Hr Hf].
  unfold echo_once, bindIO. rewrite (read_frame_bytes v rest out Hr Hf).
  destruct (write_frame v {| stdin := rest; stdout := out |} Hf) as [Hw _].
  destruct v; try discriminate Hn; rewrite Hw; reflexivity.
Qed.

Lemma run_native_host_frames (vs : list json) (out : list byte) (fuel : nat) :
  forallb echoable vs = true ->
  (length vs < fuel)%nat ->
  run_native_host fuel
    {| stdin := concat (map frame_bytes vs); stdout := out |}
  = (Ok tt, {| stdin := []; stdout := out ++ concat (map frame_bytes vs) |}).
Proof.
  revert out fuel. induction vs as [|v vs IH]; intros out fuel Hv Hfuel.
  - destruct fuel as [|fuel]; [cbn in Hfuel; lia|].
    cbn [map concat]. rewrite app_nil_r. reflexivity.
  - cbn [forallb] in Hv. apply andb_prop in Hv as [Hv Hvs].
    cbn [length] in Hfuel. destruct fuel as [|fuel]; [lia|].
    cbn [map concat run_native_host]. rewrite (echo_once_frame v _ out Hv).
    rewrite (IH (out ++ frame_bytes v) fuel Hvs) by lia.
    now rewrite <- app_assoc.
Qed.

(** X8. On an input made of the frames of messages that are
    JSON-representable, fit the length prefix and are not [None],
    [run_native_host] writes the same bytes to its output and returns at the
    end of the input, within one round per message and one more. *)
Theorem run_native_host_echoes (vs : list json) (out : list byte) (fuel : nat) :
  forallb echoable vs = true ->
  (length vs < fuel)%nat ->
  run_native_host fuel
    {| stdin := concat (map frame_bytes vs); stdout := out |}
  = (Ok tt, {| stdin := []; stdout := out ++ concat (map frame_bytes vs) |}).
Proof. apply run_native_host_frames. Qed.

Lemma run_native_host_echoes_witness :
  run_native_host 3
    {| stdin := concat (map frame_bytes [screenshot_command; JArr [JInt 1]]);
       stdout := [] |}
  = (Ok tt,
     {| stdin := [];
        stdout := [] ++ concat (map frame_bytes [screenshot_command; JArr [JInt 1]]) |}).
Proof.
  apply (run_native_host_echoes [screenshot_command; JArr [JInt 1]] [] 3).
  - reflexivity.
  - cbn. lia.
Defined.

Lemma write_outcome (v : json) (w : io) :
  exists r w', write_native_message v w = (r, w')
               /\ stdin w' = stdin w
               /\ (r = Ok tt \/ r = Raise StructError).
Proof.
  destruct (fits v) eqn:Hf.
  - destruct (write_frame v w Hf) as [-> _]. eexists _, _. split; [reflexivity|].
    split; [reflexivity | now left].
  - rewrite (write_too_long v w Hf). eexists _, _. split; [reflexivity|].
    split; [reflexivity | now right].
Qed.

Lemma decode_loads_no_fuel (payload : list byte) :
  (text <- decode_utf8 payload ;; json_loads text) <> Raise OutOfFuel.
Proof.
  intros H. apply bind_raise_inv in H as [H|(text & _ & H)].
  - apply decode_utf8_raises in H. discriminate H.
  - exact (json_loads_fuel text H).
Qed.

Lemma split_bytes_snd_length (n : N) (s : list byte) :
  (length (snd (split_bytes n s)) <= length s)%nat.
Proof.
  destruct (split_bytes_length n s) as [_ H].
  rewrite <- H at 2. rewrite length_app. lia.
Qed.

(** A round of the loop either asks for the [break] or has consumed the four
    bytes of a length prefix, and never lacks fuel. *)
Lemma echo_once_progress (w : io) :
  exists r w',
    echo_once w = (r, w')
    /\ r <> Raise OutOfFuel
    /\ (r = Ok false \/ (length (stdin w') + 4 <= length (stdin w))%nat).
Proof.
  destruct w as [input out].
  destruct input as [|b0 [|b1 [|b2 [|b3 rest]]]];
    try (eexists _, _; split; [reflexivity|]; split; [discriminate | now left]).
  unfold echo_once, bindIO.
  rewrite (read_native_message_prefix b0 b1 b2 b3 rest out _ eq_refl).
  set (L := Byte.to_N b0 + Byte.to_N b1 * 256 + Byte.to_N b2 * 65536
            + Byte.to_N b3 * 16777216).
  pose proof (split_bytes_snd_length L rest) as Hlen.
  pose proof (decode_loads_no_fuel (fst (split_bytes L rest))) as Hnf.
  destruct (text <- decode_utf8 (fst (split_bytes L rest)) ;; json_loads text)
    as [v|e].
  - destruct (write_outcome v {| stdin := snd (split_bytes L rest); stdout := out |})
      as (r & w' & Hw & Hin & Hr).
    destruct v; try (eexists _, _; split; [reflexivity|];
                     split; [discriminate | now left]);
      rewrite Hw; (destruct Hr as [-> | ->];
        (eexists _, _; split; [reflexivity|]; split; [discriminate|]; right;
         cbn [stdin length] in *; rewrite ?Hin; lia)).
  - eexists _, _. split; [reflexivity|].
    split; [intros [= ->]; now apply Hnf|]. right.
    cbn [stdin length]. lia.
Qed.

(** X9. [run_native_host] ends on every finite input: each round that does
    not end the loop consumes at least the four bytes of a length prefix, so
    that a quarter of the length of the input, and one, bound the number of
    rounds. *)
Theorem run_native_host_ends (fuel : nat) (w : io) :
  (length (stdin w) < 4 * fuel)%nat ->
  fst (run_native_host fuel w) <> Raise OutOfFuel.
Proof.
  revert w. induction fuel as [|fuel IH]; intros w Hlen; [lia|].
  cbn [run_native_host].
  destruct (echo_once_progress w) as (r & w' & -> & Hr & Hprog).
  destruct r as [[|]|e].
  - apply IH. destruct Hprog as [H|H]; [discriminate H | lia].
  - discriminate.
  - destruct (is_python_exception e) eqn:He;
      [|cbn [fst]; intros [= ->]; now apply Hr].
    unfold bindIO.
    destruct (write_outcome (error_payload (exn_str e)) w')
      as (r & w'' & -> & Hin & [-> | ->]).
    + apply IH. rewrite Hin. destruct Hprog as [H|H]; [discriminate H | lia].
    + discriminate.
Qed.

Lemma run_native_host_ends_witness :
  fst (run_native_host 3
         {| stdin := [x01; x00; x00; x00; x7b; x01; x00; x00; x00; x31];
            stdout := [] |})
  <> Raise OutOfFuel.
Proof.
  apply (run_native_host_ends 3). cbn. lia.
Defined.



(** X11. [None] is both the end of the input and the JSON value null: a
    frame whose payload is the text of null ends [run_native_host], which
    echoes nothing and leaves the frames that follow unread. *)
Theorem run_native_host_stops_at_null (b0 b1 b2 b3 : byte)
  (payload rest out : list byte) (text : pystr) (fuel : nat) :
  struct_unpack_I [b0; b1; b2; b3] = Ok (len payload) ->
  decode_utf8 payload = Ok text ->
  json_loads text = Ok JNull ->
  run_native_host (S fuel)
    {| stdin := b0 :: b1 :: b2 :: b3 :: payload ++ rest; stdout := out |}
  = (Ok tt, {| stdin := rest; stdout := out |}).
Proof.
  intros HL Hd Hn. cbn [run_native_host]. unfold echo_once, bindIO.
  rewrite (read_frame _ _ _ _ _ _ _ HL), Hd. cbn [bind]. rewrite Hn. reflexivity.
Qed.

Lemma run_native_host_stops_at_null_witness :
  run_native_host 1
    {| stdin := x04 :: x00 :: x00 :: x00 :: [x6e; x75; x6c; x6c]
                ++ frame_bytes screenshot_command;
       stdout := [] |}
  = (Ok tt, {| stdin := frame_bytes screenshot_command; stdout := [] |}).
Proof.
  apply (run_native_host_stops_at_null x04 x00 x00 x00 [x6e; x75; x6c; x6c]
           (frame_bytes screenshot_command) [] (txt "null") 0);
    reflexivity.
Defined.

(** ** The HTTP handler of the native host *)

Lemma dict_get_none_fresh (k : pystr) (d : list (pystr * json)) :
  dict_get k d = None -> existsb (pystr_eqb k) (map fst d) = false.
Proof.
  induction d as [|[k' v'] d IH]; [reflexivity|].
  cbn [dict_get map fst existsb]. destruct (pystr_eqb k k'); [discriminate|].
  exact IH.
Qed.

Lemma dict_set_same (k : pystr) (v : json) (d : list (pystr * json)) :
  dict_get k d = Some v -> dict_set k v d = d.
Proof.
  induction d as [|[k' v'] d IH]; [discriminate|].
  cbn [dict_get dict_set]. destruct (pystr_eqb k k').
  - now intros [= ->].
  - intros H. now rewrite IH.
Qed.

Lemma dict_get_set (k k' : pystr) (v : json) (d : list (pystr * json)) :
  dict_get k' (dict_set k v d)
  = if pystr_eqb k' k then Some v else dict_get k' d.
Proof.
  induction d as [|[k0 v0] d IH].
  - cbn [dict_set dict_get]. now destruct (pystr_eqb k' k).
  - cbn [dict_set dict_get]. destruct (pystr_eqb k k0) eqn:E.
    + apply pystr_eqb_eq in E. subst k0. cbn [dict_get].
      now destruct (pystr_eqb k' k).
    + cbn [dict_get]. rewrite IH.
      destruct (pystr_eqb k' k0) eqn:E0; [|reflexivity].
      apply pystr_eqb_eq in E0. subst k0.
      destruct (pystr_eqb k' k) eqn:E1; [|reflexivity].
      apply pystr_eqb_eq in E1. subst k'.
      assert (pystr_eqb k k = true) by now apply pystr_eqb_eq. congruence.
Qed.

(** X12. The request that is forwarded always carries an id: a request
    that has one is forwarded as it is, a request that has none gets the id
    http_1 as its last member, and every other member keeps its value. *)
Theorem forwarded_request_id (m : list (pystr * json)) :
  exists m',
    with_request_id default_request_id (JObj m) = Ok (JObj m')
    /\ m' = match dict_get (txt "id") m with
            | Some _ => m
            | None => m ++ [(txt "id", JStr (txt "http_1"))]
            end
    /\ (exists v, dict_get (txt "id") m' = Some v)
    /\ forall k, k <> txt "id" -> dict_get k m' = dict_get k m.
Proof.
  eexists. split; [reflexivity|]. split; [|split].
  - destruct (dict_get (txt "id") m) as [v|] eqn:E.
    + now apply dict_set_same.
    + now rewrite dict_set_fresh by now apply dict_get_none_fresh.
  - rewrite dict_get_set. eexists. reflexivity.
  - intros k Hk. rewrite dict_get_set.
    destruct (pystr_eqb k (txt "id")) eqn:E; [|reflexivity].
    apply pystr_eqb_eq in E. contradiction.
Qed.

(** The request as [do_POST] forwards it. *)
Lemma forward_ok (request_body : list byte) (text : pystr)
  (m : list (pystr * json)) (w : io) :
  decode_utf8 request_body = Ok text ->
  json_loads text = Ok (JObj m) ->
  forall m', with_request_id default_request_id (JObj m) = Ok (JObj m') ->
  fits (JObj m') = true ->
  forward request_body w
  = (reply <~ read_native_message ;; lift (json_response 200 reply))%io
      {| stdin := stdin w; stdout := stdout w ++ frame_bytes (JObj m') |}.
Proof.
  intros Hb Hl m' Hid Hf. unfold forward, bindIO at 1 2 3, lift at 1 2 3.
  rewrite Hb, Hl. fold default_request_id. rewrite Hid.
  unfold send_to_extension, bindIO.
  destruct (write_frame (JObj m') w Hf) as [-> _]. cbn [stdin stdout].
  destruct (read_native_message _) as [[r|e] w']; reflexivity.
Qed.

(** X13. A request that is a JSON object is written to the output as one
    frame, with its id, and the message of the next frame of the input comes
    back as the body of a 200 response; what follows that frame stays
    unread. *)
Theorem host_do_POST_forwards (request_body : list byte) (text : pystr)
  (m m' : list (pystr * json)) (answer : json) (rest : list byte) (w : io) :
  decode_utf8 request_body = Ok text ->
  json_loads text = Ok (JObj m) ->
  with_request_id default_request_id (JObj m) = Ok (JObj m') ->
  fits (JObj m') = true ->
  representable answer = true -> fits answer = true ->
  stdin w = frame_bytes answer ++ rest ->
  NativeHost.do_POST request_body w
  = (Ok {| status := 200;
           headers := content_type_json :: cors_headers;
           body := map byte_of_N (json_dumps answer) |},
     {| stdin := rest; stdout := stdout w ++ frame_bytes (JObj m') |}).
Proof.
  intros Hb Hl Hid Hf Ra Fa Hin. unfold NativeHost.do_POST.
  rewrite (forward_ok _ _ _ w Hb Hl m' Hid Hf). unfold bindIO, lift.
  rewrite Hin, (read_frame_bytes answer rest _ Ra Fa).
  unfold json_response. rewrite json_bytes_ok. reflexivity.
Qed.

Lemma host_do_POST_forwards_witness :
  NativeHost.do_POST screenshot_body
    {| stdin := frame_bytes (JObj [(txt "ok", JBool true)]) ++ [x09];
       stdout := [] |}
  = (Ok {| status := 200;
           headers := content_type_json :: cors_headers;
           body := map byte_of_N (json_dumps (JObj [(txt "ok", JBool true)])) |},
     {| stdin := [x09];
        stdout := [] ++ frame_bytes
                          (JObj [(txt "tool", JStr (txt "screenshot"));
                                 (txt "args", JObj []);
                                 (txt "id", JStr (txt "http_1"))]) |}).
Proof.
  apply (host_do_POST_forwards screenshot_body
           (txt "{" ++ quoted "tool" ++ txt ":" ++ quoted "screenshot"
            ++ txt "," ++ quoted "args" ++ txt ":{}}")
           [(txt "tool", JStr (txt "screenshot")); (txt "args", JObj [])]
           [(txt "tool", JStr (txt "screenshot")); (txt "args", JObj []);
            (txt "id", JStr (txt "http_1"))]
           (JObj [(txt "ok", JBool true)]) [x09]
           {| stdin := frame_bytes (JObj [(txt "ok", JBool true)]) ++ [x09];
              stdout := [] |});
    reflexivity.
Defined.

(** X14. A body that is valid JSON but not an object (null, a boolean, a
    number, a string, an array) is answered with status 500 and the text of
    the [AttributeError]; nothing is written to the extension and nothing is
    read from it. *)
Theorem host_do_POST_not_an_object (request_body : list byte) (text : pystr)
  (v : json) (w : io) :
  decode_utf8 request_body = Ok text ->
  json_loads text = Ok v ->
  type_name v <> "dict"%string ->
  NativeHost.do_POST request_body w
  = (Ok {| status := 500;
           headers := content_type_json :: cors_headers;
           body := map byte_of_N
                     (json_dumps
                        (error_payload
                           (txt ("'" ++ type_name v
                                 ++ "' object has no attribute 'get'")))) |},
     w).
Proof.
  intros Hb Hl Hv. unfold NativeHost.do_POST, forward, bindIO, lift.
  rewrite Hb, Hl.
  destruct v; try (cbn in Hv; congruence);
    cbn [with_request_id is_python_exception exn_str];
    unfold json_response; rewrite json_bytes_ok; reflexivity.
Qed.

Lemma host_do_POST_not_an_object_witness :
  NativeHost.do_POST (map byte_of_N (txt "[1]")) {| stdin := [x01]; stdout := [] |}
  = (Ok {| status := 500;
           headers := content_type_json :: cors_headers;
           body := map byte_of_N
                     (json_dumps
                        (error_payload
                           (txt ("'" ++ type_name (JArr [JInt 1])
                                 ++ "' object has no attribute 'get'")))) |},
     {| stdin := [x01]; stdout := [] |}).
Proof.
  apply (host_do_POST_not_an_object (map byte_of_N (txt "[1]")) (txt "[1]")
           (JArr [JInt 1]));
    try reflexivity.
  discriminate.
Defined.

(** X15. When the extension has closed its end, so that fewer than four
    bytes are left to read, a valid request is still written out and is
    answered with status 200 and the body null. *)
Theorem host_do_POST_extension_closed (request_body : list byte) (text : pystr)
  (m m' : list (pystr * json)) (w : io) :
  decode_utf8 request_body = Ok text ->
  json_loads text = Ok (JObj m) ->
  with_request_id default_request_id (JObj m) = Ok (JObj m') ->
  fits (JObj m') = true ->
  len (stdin w) < 4 ->
  NativeHost.do_POST request_body w
  = (Ok {| status := 200;
           headers := content_type_json :: cors_headers;
           body := map byte_of_N [110; 117; 108; 108] |},
     {| stdin := []; stdout := stdout w ++ frame_bytes (JObj m') |}).
Proof.
  intros Hb Hl Hid Hf Hin. unfold NativeHost.do_POST.
  rewrite (forward_ok _ _ _ w Hb Hl m' Hid Hf). unfold bindIO, lift.
  rewrite read_native_message_short by exact Hin. reflexivity.
Qed.

Lemma host_do_POST_extension_closed_witness :
  NativeHost.do_POST screenshot_body {| stdin := [x05; x00]; stdout := [] |}
  = (Ok {| status := 200;
           headers := content_type_json :: cors_headers;
           body := map byte_of_N [110; 117; 108; 108] |},
     {| stdin := [];
        stdout := [] ++ frame_bytes
                          (JObj [(txt "tool", JStr (txt "screenshot"));
                                 (txt "args", JObj []);
                                 (txt "id", JStr (txt "http_1"))]) |}).
Proof.
  apply (host_do_POST_extension_closed screenshot_body
           (txt "{" ++ quoted "tool" ++ txt ":" ++ quoted "screenshot"
            ++ txt "," ++ quoted "args" ++ txt ":{}}")
           [(txt "tool", JStr (txt "screenshot")); (txt "args", JObj [])]
           [(txt "tool", JStr (txt "screenshot")); (txt "args", JObj []);
            (txt "id", JStr (txt "http_1"))]
           {| stdin := [x05; x00]; stdout := [] |});
    reflexivity.
Defined.



Lemma read_native_message_no_fuel (w : io) :
  fst (read_native_message w) <> Raise OutOfFuel.
Proof.
  destruct w as [input out].
  destruct input as [|b0 [|b1 [|b2 [|b3 rest]]]]; try discriminate.
  rewrite (read_native_message_prefix b0 b1 b2 b3 rest out _ eq_refl).
  apply decode_loads_no_fuel.
Qed.

Lemma forward_outcome (request_body : list byte) (w : io) :
  (exists r, fst (forward request_body w) = Ok r /\ status r = 200)
  \/ (exists e, fst (forward request_body w) = Raise e /\ e <> OutOfFuel).
Proof.
  unfold forward, send_to_extension, bindIO, lift.
  destruct (decode_utf8 request_body) as [text|e] eqn:Hd.
  2:{ right. exists e. split; [reflexivity|].
      apply decode_utf8_raises in Hd. now subst. }
  destruct (json_loads text) as [request|e] eqn:Hl.
  2:{ right. exists e. split; [reflexivity|]. intros ->.
      exact (json_loads_fuel text Hl). }
  destruct (with_request_id _ request) as [request'|e] eqn:Hid.
  2:{ right. exists e. split; [reflexivity|].
      destruct request; cbn in Hid; try discriminate Hid;
        injection Hid as <-; discriminate. }
  destruct (write_outcome request' w) as (r & w' & -> & _ & [-> | ->]).
  2:{ right. exists StructError. split; [reflexivity | discriminate]. }
  pose proof (read_native_message_no_fuel w') as Hr.
  destruct (read_native_message w') as [[answer|e] w''].
  - left. unfold json_response. rewrite json_bytes_ok.
    eexists. split; reflexivity.
  - right. exists e. split; [reflexivity|]. intros ->. now apply Hr.
Qed.

(** X17. [do_POST] of the native host answers every request: whatever the
    body and whatever the extension sends, the handler ends with a response
    of status 200, 400 or 500 and lets no exception escape (in the model,
    except where it stops at a float literal). *)
Theorem host_do_POST_always_answers (request_body : list byte) (w : io) :
  (exists r, fst (NativeHost.do_POST request_body w) = Ok r
             /\ (status r = 200 \/ status r = 400 \/ status r = 500))
  \/ fst (NativeHost.do_POST request_body w) = Raise FloatLiteral.
Proof.
  unfold NativeHost.do_POST.
  destruct (forward_outcome request_body w) as [(r & Hr & Hs)|(e & He & Hne)];
    destruct (forward request_body w) as [[r0|e0] w']; cbn [fst] in *;
    try discriminate.
  - injection Hr as ->. left. exists r. split; [reflexivity | now left].
  - injection He as ->.
    destruct e; try contradiction;
      try (left; unfold json_response; rewrite json_bytes_ok;
           eexists; split; [reflexivity|]; cbn [status]; auto).
    right. reflexivity.
Qed.
